(** * iCloud Photos to S3 sync: a shallow embedding of [icloud_to_s3.py]

    The Python class [iCloudS3Sync] is embedded as state-passing code in
    a small state-and-exception monad.  Everything outside the process
    (the iCloud download, the local file system calls that may fail,
    the S3 client, the clock) answers through an explicit environment
    record, so every theorem quantifies over all behaviours of those
    collaborators. *)

From Stdlib Require Import ZArith Ascii String.
From Stdlib.Strings Require Import Byte.
From stdpp Require Import gmap strings list pretty.

Local Open Scope Z_scope.
Local Open Scope string_scope.

(** ** Python exceptions and results *)

(** The exception classes the source distinguishes: [ClientError] (the
    only class [file_exists_in_s3] catches, with its
    [response['Error']['Code']]), every other subclass of [Exception]
    (what [except Exception] catches), and [KeyboardInterrupt], which
    derives from [BaseException] and is caught only in [main]. *)
Inductive exn : Type :=
| ClientError (code : string)
| OtherException (what : string)
| KeyboardInterrupt.

Definition is_Exception (e : exn) : bool :=
  match e with
  | KeyboardInterrupt => false
  | _ => true
  end.

Inductive res (A : Type) : Type :=
| Ret (a : A)
| Raise (e : exn).
Arguments Ret {A} a.
Arguments Raise {A} e.

(** ** Strings as Python handles them *)

Definition dquote : ascii := "034"%char.

Fixpoint lstrip (c : ascii) (s : string) : string :=
  match s with
  | String a s' => if Ascii.eqb a c then lstrip c s' else s
  | EmptyString => EmptyString
  end.

Fixpoint string_rev_onto (s acc : string) : string :=
  match s with
  | String a s' => string_rev_onto s' (String a acc)
  | EmptyString => acc
  end.

Definition string_rev (s : string) : string := string_rev_onto s "".

(** [s.strip(c)] for a one-character argument: leading and trailing
    occurrences of [c] are removed. *)
Definition strip (c : ascii) (s : string) : string :=
  string_rev (lstrip c (string_rev (lstrip c s))).

Definition startswith (p s : string) : bool := String.prefix p s.

Definition endswith (c : ascii) (s : string) : bool :=
  match string_rev s with
  | String a _ => Ascii.eqb a c
  | EmptyString => false
  end.

(** [os.path.join(a, b)] on POSIX. *)
Definition path_join (a b : string) : string :=
  if startswith "/" b then b
  else if (String.eqb a "" || endswith "/" a)%bool then a ++ b
  else a ++ "/" ++ b.

Definition ascii_lower (a : ascii) : ascii :=
  let n := nat_of_ascii a in
  if ((65 <=? n)%nat && (n <=? 90)%nat)%bool then ascii_of_nat (n + 32) else a.

Fixpoint lower (s : string) : string :=
  match s with
  | String a s' => String (ascii_lower a) (lower s')
  | EmptyString => EmptyString
  end.

(** [s.split('/')]: the texts between the slashes of [s]. *)
Fixpoint split_slash (s : string) : list string :=
  match s with
  | String a s' =>
      if Ascii.eqb a "/" then "" :: split_slash s'
      else match split_slash s' with
           | c :: cs => String a c :: cs
           | [] => [String a ""]
           end
  | EmptyString => [""]
  end.

(** [Path(s).name]: [pathlib] drops the empty components and the
    components ['.'] of a path (so a trailing ['/'] or ['/.'] does not
    count), and the name is the last component that is left, or the
    empty string when none is. *)
Definition is_name (c : string) : bool :=
  negb (String.eqb c "" || String.eqb c ".").

Definition basename (s : string) : string :=
  List.last (List.filter is_name (split_slash s)) "".

(** [name.rfind('.')] as the suffix starting at the last dot, when there
    is one, together with the index of that dot. *)
Fixpoint rfind_dot (s : string) (i : nat) : option (nat * string) :=
  match s with
  | String a s' =>
      match rfind_dot s' (S i) with
      | Some r => Some r
      | None => if Ascii.eqb a "." then Some (i, s) else None
      end
  | EmptyString => None
  end.

(** [Path(filename).suffix]: the last dot of the final component counts
    only when it is neither the first nor the last character. *)
Definition path_suffix (filename : string) : string :=
  let name := basename filename in
  match rfind_dot name 0 with
  | Some (i, suf) =>
      if ((0 <? i)%nat && (i <? String.length name - 1)%nat)%bool then suf else ""
  | None => ""
  end.

(** [f"{n:02d}"] and [f"{n}"] for a non-negative integer. *)
Definition fmt_d (n : N) : string := pretty n.
Definition fmt_02d (n : N) : string :=
  if (n <? 10)%N then "0" ++ pretty n else pretty n.

(** ** hashlib.md5

    The digest of RFC 1321 on 32-bit words held in [Z], with the
    wrap-around written out.  A hash object is the sequence of bytes it
    has been fed; [hexdigest] runs the algorithm over them. *)
Module MD5.

Definition mask32 (x : Z) : Z := Z.land x 4294967295.

Definition not32 (x : Z) : Z := Z.lxor x 4294967295.

Definition rotl32 (x c : Z) : Z :=
  mask32 (Z.lor (Z.shiftl x c) (Z.shiftr x (32 - c))).

Definition K : list Z :=
  [ 3614090360; 3905402710;  606105819; 3250441966;
    4118548399; 1200080426; 2821735955; 4249261313;
    1770035416; 2336552879; 4294925233; 2304563134;
    1804603682; 4254626195; 2792965006; 1236535329;
    4129170786; 3225465664;  643717713; 3921069994;
    3593408605;   38016083; 3634488961; 3889429448;
     568446438; 3275163606; 4107603335; 1163531501;
    2850285829; 4243563512; 1735328473; 2368359562;
    4294588738; 2272392833; 1839030562; 4259657740;
    2763975236; 1272893353; 4139469664; 3200236656;
     681279174; 3936430074; 3572445317;   76029189;
    3654602809; 3873151461;  530742520; 3299628645;
    4096336452; 1126891415; 2878612391; 4237533241;
    1700485571; 2399980690; 4293915773; 2240044497;
    1873313359; 4264355552; 2734768916; 1309151649;
    4149444226; 3174756917;  718787259; 3951481745 ].

Definition shifts : list Z :=
  [ 7; 12; 17; 22; 7; 12; 17; 22; 7; 12; 17; 22; 7; 12; 17; 22;
    5;  9; 14; 20; 5;  9; 14; 20; 5;  9; 14; 20; 5;  9; 14; 20;
    4; 11; 16; 23; 4; 11; 16; 23; 4; 11; 16; 23; 4; 11; 16; 23;
    6; 10; 15; 21; 6; 10; 15; 21; 6; 10; 15; 21; 6; 10; 15; 21 ].

Definition byte_Z (b : byte) : Z := Z.of_N (Byte.to_N b).

Definition Z_byte (z : Z) : byte :=
  default "000"%byte (Byte.of_N (Z.to_N (Z.land z 255))).

(** Little-endian bytes of the low [n] bytes of [z]. *)
Fixpoint le_bytes (n : nat) (z : Z) : list byte :=
  match n with
  | O => []
  | S n' => Z_byte z :: le_bytes n' (Z.shiftr z 8)
  end.

Fixpoint le_word (bs : list byte) : Z :=
  match bs with
  | [] => 0
  | b :: bs' => Z.lor (byte_Z b) (Z.shiftl (le_word bs') 8)
  end.

Definition pad (msg : list byte) : list byte :=
  let len := length msg in
  let zeros := ((119 - len mod 64) mod 64)%nat in
  (msg ++ ["128"%byte] ++ replicate zeros "000"%byte
       ++ le_bytes 8 (8 * Z.of_nat len))%list.

Fixpoint words (n : nat) (block : list byte) : list Z :=
  match n with
  | O => []
  | S n' => le_word (take 4 block) :: words n' (drop 4 block)
  end.

Definition round (m : list Z) (i : nat) (st : Z * Z * Z * Z) : Z * Z * Z * Z :=
  let '(a, b, c, d) := st in
  let '(f, g) :=
    if (i <? 16)%nat then (Z.lor (Z.land b c) (Z.land (not32 b) d), i)
    else if (i <? 32)%nat then
           (Z.lor (Z.land d b) (Z.land (not32 d) c), ((5 * i + 1) mod 16)%nat)
    else if (i <? 48)%nat then (Z.lxor b (Z.lxor c d), ((3 * i + 5) mod 16)%nat)
    else (Z.lxor c (Z.lor b (not32 d)), ((7 * i) mod 16)%nat) in
  let f' := mask32 (f + a + default 0 (K !! i) + default 0 (m !! g)) in
  (d, mask32 (b + rotl32 f' (default 0 (shifts !! i))), b, c).

Definition block_step (st : Z * Z * Z * Z) (block : list byte) : Z * Z * Z * Z :=
  let m := words 16 block in
  let '(a, b, c, d) := st in
  let '(a', b', c', d') := foldl (fun s i => round m i s) st (seq 0 64) in
  (mask32 (a + a'), mask32 (b + b'), mask32 (c + c'), mask32 (d + d')).

Fixpoint blocks (n : nat) (st : Z * Z * Z * Z) (bs : list byte) : Z * Z * Z * Z :=
  match n with
  | O => st
  | S n' => blocks n' (block_step st (take 64 bs)) (drop 64 bs)
  end.

Definition hex_digit (z : Z) : ascii :=
  default "0"%char (list_ascii_of_string "0123456789abcdef" !! Z.to_nat z).

Definition hex_byte (b : byte) : string :=
  String (hex_digit (Z.shiftr (byte_Z b) 4))
         (String (hex_digit (Z.land (byte_Z b) 15)) "").

Definition digest (msg : list byte) : list byte :=
  let p := pad msg in
  let '(a, b, c, d) :=
    blocks (length p / 64) (1732584193, 4023233417, 2562383102, 271733878) p in
  (le_bytes 4 a ++ le_bytes 4 b ++ le_bytes 4 c ++ le_bytes 4 d)%list.

(** The hash object of [hashlib.md5()]. *)
Definition t : Type := list byte.
Definition new : t := [].
Definition update (h : t) (chunk : list byte) : t := (h ++ chunk)%list.
Definition hexdigest (h : t) : string :=
  foldr (fun b acc => hex_byte b ++ acc) "" (digest h).

End MD5.

(** ** Data model *)

(** What [hasattr] and [getattr] see: an attribute is absent or has a
    value. *)
Inductive attr (A : Type) : Type :=
| Absent
| Attr (v : A).
Arguments Absent {A}.
Arguments Attr {A} v.

(** The parts of a [datetime] the source reads. *)
Record datetime : Type := mk_datetime {
  year : N;
  month : N;
  isoformat : string
}.

(** A photo asset as the source sees it.  [created] and [asset_date]
    may be present and [None]. *)
Record Photo : Type := mk_Photo {
  id : string;
  filename : attr string;
  created : attr (option datetime);
  asset_date : attr (option datetime)
}.

(** The [ExtraArgs] dictionary passed to [upload_file]. *)
Record ExtraArgs : Type := mk_ExtraArgs {
  ContentType : string;
  StorageClass : option string;
  Metadata : option (list (string * string))
}.

(** Calls that leave the process, in the order they are issued. *)
Inductive event : Type :=
| EvDownload (icloud_id : string)
| EvHeadObject (key : string)
| EvUploadFile (local_path key : string) (extra : ExtraArgs)
| EvSaveState.

(** The content of [sync_state.json]: a state with its
    [processed_files] array and its [last_sync] stamp, or bytes that
    [json.load] rejects (among them the empty file). *)
Inductive json_file : Type :=
| StateJson (keys : gset string) (last_sync : string)
| Garbage.

(** The instance attributes of [iCloudS3Sync] together with the local
    resources it touches. *)
Record state : Type := mk_state {
  icloud : bool;
  s3_client : bool;
  storage_class : string;
  processed_files : gset string;
  files : gmap string (list byte);
  state_file : option json_file;
  trace : list event
}.

Definition set_processed_files (ks : gset string) (st : state) : state :=
  mk_state (icloud st) (s3_client st) (storage_class st) ks
           (files st) (state_file st) (trace st).

Definition set_files (fs : gmap string (list byte)) (st : state) : state :=
  mk_state (icloud st) (s3_client st) (storage_class st) (processed_files st)
           fs (state_file st) (trace st).

Definition set_state_file (f : option json_file) (st : state) : state :=
  mk_state (icloud st) (s3_client st) (storage_class st) (processed_files st)
           (files st) f (trace st).

Definition set_trace (tr : list event) (st : state) : state :=
  mk_state (icloud st) (s3_client st) (storage_class st) (processed_files st)
           (files st) (state_file st) tr.

(** ** The monad: state passing with Python exceptions *)

Definition M (A : Type) : Type := state -> res A * state.

Definition ret {A} (a : A) : M A := fun st => (Ret a, st).

Definition raise {A} (e : exn) : M A := fun st => (Raise e, st).

Definition bind {A B} (m : M A) (k : A -> M B) : M B :=
  fun st =>
    match m st with
    | (Ret a, st') => k a st'
    | (Raise e, st') => (Raise e, st')
    end.

Notation "'let*' x := m 'in' k" := (bind m (fun x => k))
  (at level 10, x pattern, m at level 200, k at level 200).

(** The answer of a collaborator, known to the environment. *)
Definition lift {A} (r : res A) : M A := fun st => (r, st).

(** [try: body  except Exception as e: handler e]. *)
Definition try_except {A} (body : M A) (handler : exn -> M A) : M A :=
  fun st =>
    match body st with
    | (Raise e, st') => if is_Exception e then handler e st' else (Raise e, st')
    | r => r
    end.

(** [try: body  except ClientError as e: handler code]. *)
Definition try_except_ClientError {A} (body : M A) (handler : string -> M A) : M A :=
  fun st =>
    match body st with
    | (Raise (ClientError code), st') => handler code st'
    | r => r
    end.

Definition log_event (ev : event) : M unit :=
  fun st => (Ret tt, set_trace (trace st ++ [ev])%list st).

Definition get_processed_files : M (gset string) :=
  fun st => (Ret (processed_files st), st).

(** [self.processed_files.add(k)] *)
Definition processed_files_add (k : string) : M unit :=
  fun st => (Ret tt, set_processed_files ({[k]} ∪ processed_files st) st).

(** ** The environment of one run *)

(** What [photo.download()] returns when it is truthy: an object whose
    [raw.read()] yields the bytes or raises. *)
Record response : Type := mk_response {
  raw_read : res (list byte)
}.

(** The answers given to one call of [save_sync_state]. *)
Record save_io : Type := mk_save_io {
  sv_now : string;           (* datetime.now().isoformat() *)
  sv_open_w : res unit;      (* open(self.state_file, 'w') *)
  sv_dump : res unit         (* json.dump(state, f, indent=2) *)
}.

(** The answers given during one iteration of the loop of
    [sync_photos]. *)
Record item_io : Type := mk_item_io {
  io_download : res (option response);  (* photo.download(); None: a falsy response *)
  io_open_wb : res unit;                (* open(temp_file, 'wb') *)
  io_write : res unit;                  (* f.write(...) *)
  io_head_object : res (option string); (* head_object(...): the 'ETag' entry of the response *)
  io_now : string;                      (* datetime.now().isoformat() *)
  io_upload_file : res unit;            (* upload_file(...) *)
  io_save : save_io                     (* the periodic save of this iteration *)
}.

Record env : Type := mk_env {
  env_load : res unit;                  (* reading sync_state.json *)
  env_photos : res (list Photo);        (* self.icloud.photos.all *)
  env_temp_dir : string;                (* the name tempfile.TemporaryDirectory() picks *)
  env_item : Z -> item_io;              (* iteration i, counted from 1 *)
  env_final_save : save_io              (* the save after the loop *)
}.

(** ** Local files *)

(** [open(path, 'wb')]: on success the file exists and is empty. *)
Definition open_wb (io : item_io) (path : string) : M unit :=
  let* _ := lift (io_open_wb io) in
  fun st => (Ret tt, set_files (<[path := []]> (files st)) st).

(** [f.write(data)] on the file just opened. *)
Definition write (io : item_io) (path : string) (data : list byte) : M unit :=
  let* _ := lift (io_write io) in
  fun st => (Ret tt, set_files (<[path := data]> (files st)) st).

(** [open(path, 'rb')] followed by reading the file. *)
Definition open_rb (path : string) : M (list byte) :=
  fun st =>
    match files st !! path with
    | Some data => (Ret data, st)
    | None => (Raise (OtherException "FileNotFoundError"), st)
    end.

(** [os.remove(path)]: removes the file, or raises when there is none. *)
Definition os_remove (path : string) : M unit :=
  fun st =>
    match files st !! path with
    | Some _ => (Ret tt, set_files (delete path (files st)) st)
    | None => (Raise (OtherException "FileNotFoundError"), st)
    end.

(** What is left of [s] after the prefix [p]. *)
Fixpoint strip_prefix (p s : string) : option string :=
  match p, s with
  | EmptyString, _ => Some s
  | String a p', String b s' => if Ascii.eqb a b then strip_prefix p' s' else None
  | String _ _, EmptyString => None
  end.

(** The files a directory holds.  The files of the model are keyed by
    the text of their path, so a path is located from its text: it lies
    in [dir] when it reads [dir/rest] and [rest] never steps to a parent
    directory.  A path [dir/../x] names a file beside the directory, not
    in it.  (No subdirectory is ever made in the scratch directory, so a
    path that enters one and comes back names no file.) *)
Definition in_dir (dir path : string) : Prop :=
  Is_true (match strip_prefix (dir ++ "/") path with
           | Some rest => negb (existsb (String.eqb "..") (split_slash rest))
           | None => false
           end).

(** [with tempfile.TemporaryDirectory() as temp_dir: body]: the
    directory and all it holds are removed on every exit. *)
Definition rmtree (dir : string) (st : state) : state :=
  set_files (filter (fun kv => ~ in_dir dir kv.1) (files st)) st.

Definition with_TemporaryDirectory {A} (dir : string) (body : string -> M A) : M A :=
  fun st =>
    let '(r, st') := body dir st in
    (r, rmtree dir st').

(** ** Methods of [iCloudS3Sync] *)

(** [load_sync_state]; the dictionary it returns is not used by its
    caller. *)
Definition load_sync_state (E : env) : M unit :=
  fun st =>
    match state_file st with
    | None => (Ret tt, st)
    | Some f =>
        try_except
          (let* _ := lift (env_load E) in
           match f with
           | StateJson keys _ =>
               fun st' => (Ret tt, set_processed_files keys st')
           | Garbage => raise (OtherException "JSONDecodeError")
           end)
          (fun _ => ret tt) st
    end.

(** [save_sync_state]: opening the file for writing empties it, and
    [json.dump] then writes the whole state. *)
Definition save_sync_state (sv : save_io) : M unit :=
  let* _ := log_event EvSaveState in
  try_except
    (let* keys := get_processed_files in
     let last_sync := sv_now sv in
     let* _ := lift (sv_open_w sv) in
     let* _ := (fun st => (Ret tt, set_state_file (Some Garbage) st)) in
     let* _ := lift (sv_dump sv) in
     fun st => (Ret tt, set_state_file (Some (StateJson keys last_sync)) st))
    (fun _ => ret tt).

(** The chunks [iter(lambda: f.read(4096), b"")] yields are fed to the
    hash object one by one, until a read returns no byte; [n] bounds
    the number of reads, and the length of the file is enough. *)
Fixpoint hash_chunks (n : nat) (hash_md5 : MD5.t) (rest : list byte) : MD5.t :=
  match n, rest with
  | S n', _ :: _ => hash_chunks n' (MD5.update hash_md5 (take 4096 rest)) (drop 4096 rest)
  | _, _ => hash_md5
  end.

Definition get_file_hash (file_path : string) : M string :=
  let* data := open_rb file_path in
  ret (MD5.hexdigest (hash_chunks (length data) MD5.new data)).

Definition file_exists_in_s3 (io : item_io) (s3_key local_hash : string) : M bool :=
  try_except_ClientError
    (let* _ := log_event (EvHeadObject s3_key) in
     let* response := lift (io_head_object io) in
     let s3_etag := strip dquote (default "" response) in
     ret (String.eqb s3_etag local_hash))
    (fun code => if String.eqb code "404" then ret false else ret false).

Definition content_types : list (string * string) :=
  [ (".jpg", "image/jpeg"); (".jpeg", "image/jpeg"); (".png", "image/png");
    (".gif", "image/gif"); (".bmp", "image/bmp"); (".tiff", "image/tiff");
    (".webp", "image/webp"); (".heic", "image/heic"); (".heif", "image/heif");
    (".mp4", "video/mp4"); (".mov", "video/quicktime"); (".avi", "video/x-msvideo") ].

Fixpoint dict_get (k : string) (d : list (string * string)) (dflt : string) : string :=
  match d with
  | [] => dflt
  | (k', v) :: d' => if String.eqb k' k then v else dict_get k d' dflt
  end.

Definition get_content_type (filename : string) : string :=
  let ext := lower (path_suffix filename) in
  dict_get ext content_types "application/octet-stream".

Definition upload_to_s3 (io : item_io) (local_path s3_key : string)
    (metadata : option (list (string * string))) : M bool :=
  try_except
    (fun st =>
       let extra_args :=
         {| ContentType := get_content_type local_path;
            StorageClass :=
              if String.eqb (storage_class st) "" then None else Some (storage_class st);
            Metadata :=
              match metadata with
              | None | Some [] => None
              | Some m => Some m
              end |} in
       (let* _ := log_event (EvUploadFile local_path s3_key extra_args) in
        let* _ := lift (io_upload_file io) in
        ret true) st)
    (fun _ => ret false).

Definition generate_s3_key (photo : Photo) (filename : string) : string :=
  let created_date :=
    match created photo with
    | Attr d => d
    | Absent =>
        match asset_date photo with
        | Attr d => d
        | Absent => None
        end
    end in
  match created_date with
  | Some d => "photos/" ++ fmt_d (year d) ++ "/" ++ fmt_02d (month d) ++ "/" ++ filename
  | None => "photos/unknown_date/" ++ filename
  end.

(** [getattr(photo, 'filename', f"photo_{photo.id}.jpg")] *)
Definition photo_filename (photo : Photo) : string :=
  match filename photo with
  | Attr f => f
  | Absent => "photo_" ++ id photo ++ ".jpg"
  end.

(** [f"{photo.id}_{filename}"], the key kept in [processed_files]. *)
Definition photo_key (photo : Photo) : string :=
  id photo ++ "_" ++ photo_filename photo.

Definition download_and_upload_photo (io : item_io) (photo : Photo) (temp_dir : string)
    : M bool :=
  try_except
    (let filename := photo_filename photo in
     let photo_id := id photo ++ "_" ++ filename in
     let* processed := get_processed_files in
     if bool_decide (photo_id ∈ processed) then ret true
     else
       let temp_file := path_join temp_dir filename in
       let* _ := log_event (EvDownload (id photo)) in
       let* download_response := lift (io_download io) in
       match download_response with
       | None => ret false
       | Some resp =>
           let* _ := open_wb io temp_file in
           let* data := lift (raw_read resp) in
           let* _ := write io temp_file data in
           let* file_hash := get_file_hash temp_file in
           let s3_key := generate_s3_key photo filename in
           let* found := file_exists_in_s3 io s3_key file_hash in
           if found then
             let* _ := processed_files_add photo_id in
             let* _ := os_remove temp_file in
             ret true
           else
             let metadata :=
               [ ("original-filename", filename); ("icloud-id", id photo);
                 ("file-hash", file_hash); ("upload-date", io_now io) ] in
             let* metadata :=
               match created photo with
               | Absent => ret metadata
               | Attr (Some d) => ret (metadata ++ [("created-date", isoformat d)])%list
               | Attr None => raise (OtherException "AttributeError")
               end in
             let* sent := upload_to_s3 io temp_file s3_key (Some metadata) in
             let* _ := (if sent then processed_files_add photo_id else ret tt) in
             let* _ := os_remove temp_file in
             ret true
       end)
    (fun _ => ret false).

(** The dictionary [stats]. *)
Record Stats : Type := mk_Stats {
  total : Z;
  processed : Z;
  uploaded : Z;
  skipped : Z;
  errors : Z
}.

Definition incr_processed (s : Stats) : Stats :=
  mk_Stats (total s) (processed s + 1) (uploaded s) (skipped s) (errors s).
Definition incr_uploaded (s : Stats) : Stats :=
  mk_Stats (total s) (processed s) (uploaded s + 1) (skipped s) (errors s).
Definition incr_errors (s : Stats) : Stats :=
  mk_Stats (total s) (processed s) (uploaded s) (skipped s) (errors s + 1).

(** The [try] statement inside the loop of [sync_photos]. *)
Definition process_photo (io : item_io) (photo : Photo) (temp_dir : string)
    (stats : Stats) : M Stats :=
  try_except
    (let* ok := download_and_upload_photo io photo temp_dir in
     if ok then
       let stats := incr_processed stats in
       let* marked := get_processed_files in
       if bool_decide (id photo ++ "_" ++ photo_filename photo ∈ marked)
       then ret (incr_uploaded stats)
       else ret stats
     else ret (incr_errors stats))
    (fun _ => ret (incr_errors stats)).

(** [max_photos and i == max_photos] *)
Definition reached_max (max_photos : option Z) (i : Z) : bool :=
  match max_photos with
  | Some m => negb (Z.eqb m 0) && Z.eqb i m
  | None => false
  end.

(** [if i % 10 == 0: self.save_sync_state()] *)
Definition periodic_save (E : env) (i : Z) : M unit :=
  if Z.eqb (i mod 10) 0 then save_sync_state (io_save (env_item E i)) else ret tt.

(** [for i, photo in enumerate(photos, 1): ...], entered at index [i]
    with the photos still to come. *)
Fixpoint photo_loop (E : env) (temp_dir : string) (max_photos : option Z)
    (i : Z) (photos : list Photo) (stats : Stats) : M Stats :=
  match photos with
  | [] => ret stats
  | photo :: rest =>
      let* stats := process_photo (env_item E i) photo temp_dir stats in
      let* _ := periodic_save E i in
      if reached_max max_photos i then ret stats
      else photo_loop E temp_dir max_photos (i + 1) rest stats
  end.

Definition sync_photos (E : env) (max_photos : option Z) : M Stats :=
  fun st =>
    if (negb (icloud st) || negb (s3_client st))%bool
    then (Raise (OtherException "iCloud or S3 not properly initialized"), st)
    else
      (let* _ := load_sync_state E in
       let* photos := lift (env_photos E) in
       match photos with
       | [] => ret (mk_Stats 0 0 0 0 0)
       | _ :: _ =>
           let stats := mk_Stats (Z.of_nat (length photos)) 0 0 0 0 in
           let* stats :=
             with_TemporaryDirectory (env_temp_dir E)
               (fun temp_dir => photo_loop E temp_dir max_photos 1 photos stats) in
           let* _ := save_sync_state (env_final_save E) in
           ret stats
       end) st.

(** ** [main] *)

(** What [main] learns before the sync starts: the outcomes of the two
    setup calls and the cap read from the prompts ([None] with
    [SKIP_TEST] set or a test run declined). *)
Record main_env : Type := mk_main_env {
  m_storage_class : string;
  m_setup_icloud : bool;
  m_setup_s3 : bool;
  m_max_photos : res (option Z)
}.

(** [iCloudS3Sync(storage_class)] next to the files already on disk. *)
Definition new_sync (storage_class : string) (fs : gmap string (list byte))
    (disk : option json_file) : state :=
  mk_state false false storage_class ∅ fs disk [].

Definition set_icloud (st : state) : state :=
  mk_state true (s3_client st) (storage_class st) (processed_files st)
           (files st) (state_file st) (trace st).

Definition set_s3_client (st : state) : state :=
  mk_state (icloud st) true (storage_class st) (processed_files st)
           (files st) (state_file st) (trace st).

(** The exit status of [main] and the state it leaves. *)
Definition main (me : main_env) (E : env) (fs : gmap string (list byte))
    (disk : option json_file) : Z * state :=
  let sync := new_sync (m_storage_class me) fs disk in
  if negb (m_setup_icloud me) then (1, sync)
  else
    let sync := set_icloud sync in
    if negb (m_setup_s3 me) then (1, sync)
    else
      let sync := set_s3_client sync in
      match (let* max_photos := lift (m_max_photos me) in
             sync_photos E max_photos) sync with
      | (Ret _, st) => (0, st)
      | (Raise KeyboardInterrupt, st) => (1, st)
      | (Raise _, st) => (1, st)
      end.

(** ** [setup_icloud] and [setup_s3] *)

(** What [boto3] answers during [setup_s3].  The client is built from
    explicit credentials or, without them, from the default chain. *)
Record s3_io : Type := mk_s3_io {
  s3_new_client : option (string * string) -> string -> res unit;
  s3_head_bucket : string -> res unit
}.

(** [x and y] on two optional strings: both present and not empty. *)
Definition explicit_credentials (aws_access_key aws_secret_key : option string)
    : option (string * string) :=
  match aws_access_key, aws_secret_key with
  | Some k, Some s =>
      if (String.eqb k "" || String.eqb s "")%bool then None else Some (k, s)
  | _, _ => None
  end.

(** [setup_s3]; the three [except] clauses differ in the message they
    log and all return [False]. *)
Definition setup_s3 (sio : s3_io) (bucket_name : string)
    (aws_access_key aws_secret_key : option string) (region : string) : M bool :=
  try_except
    (let* _ := lift (s3_new_client sio
                       (explicit_credentials aws_access_key aws_secret_key) region) in
     let* _ := (fun st => (Ret tt, set_s3_client st)) in
     let* _ := lift (s3_head_bucket sio bucket_name) in
     ret true)
    (fun e =>
       match e with
       | ClientError code =>
           if String.eqb code "404" then ret false
           else if String.eqb code "403" then ret false
           else ret false
       | _ => ret false
       end).

(** A trusted device, a dictionary that may have a ['deviceName']. *)
Record device : Type := mk_device {
  deviceName : option string
}.

(** What [pyicloud] and the terminal answer during [setup_icloud]. *)
Record icloud_io : Type := mk_icloud_io {
  ic_connect : res unit;                        (* PyiCloudService(username, password) *)
  ic_requires_2fa : bool;
  ic_requires_2sa : bool;
  ic_input : string -> res string;              (* input(prompt) *)
  ic_int : string -> res Z;                     (* int(text) *)
  ic_validate_2fa_code : string -> res bool;
  ic_trusted_devices : list device;
  ic_send_verification_code : device -> res bool;
  ic_validate_verification_code : device -> string -> res bool
}.

(** [l[i]] on a Python list: a negative index counts from the end. *)
Definition py_getitem {A} (l : list A) (i : Z) : res A :=
  let n := Z.of_nat (length l) in
  let j := if (i <? 0)%Z then i + n else i in
  if ((0 <=? j)%Z && (j <? n)%Z)%bool then
    match l !! Z.to_nat j with
    | Some x => Ret x
    | None => Raise (OtherException "IndexError")
    end
  else Raise (OtherException "IndexError").

(** [setup_icloud]; what it prints and logs is left out. *)
Definition setup_icloud (ic : icloud_io) (username password : string) : M bool :=
  try_except
    (let* _ := lift (ic_connect ic) in
     let* _ := (fun st => (Ret tt, set_icloud st)) in
     if ic_requires_2fa ic then
       let* code := lift (ic_input ic "Enter the verification code sent to your devices: ") in
       let* result := lift (ic_validate_2fa_code ic code) in
       if negb result then ret false else ret true
     else if ic_requires_2sa ic then
       let devices := ic_trusted_devices ic in
       let* text := lift (ic_input ic "Select device: ") in
       let* device_index := lift (ic_int ic text) in
       let* device := lift (py_getitem devices device_index) in
       let* sent := lift (ic_send_verification_code ic device) in
       if negb sent then ret false
       else
         let* code := lift (ic_input ic "Enter verification code: ") in
         let* valid := lift (ic_validate_verification_code ic device code) in
         if negb valid then ret false else ret true
     else ret true)
    (fun _ => ret false).

(** * Vocabulary of the statements *)

(** The answer of the probe as a function of what [head_object] did. *)
Definition probe_answer (io : item_io) (local_hash : string) : res bool :=
  match io_head_object io with
  | Ret tag => Ret (String.eqb (strip dquote (default "" tag)) local_hash)
  | Raise (ClientError _) => Ret false
  | Raise e => Raise e
  end.

(** The answer of [upload_to_s3] as a function of what [upload_file]
    did. *)
Definition upload_answer (io : item_io) : res bool :=
  match io_upload_file io with
  | Ret _ => Ret true
  | Raise KeyboardInterrupt => Raise KeyboardInterrupt
  | Raise _ => Ret false
  end.

Definition upload_extra_args (st : state) (local_path : string)
    (metadata : option (list (string * string))) : ExtraArgs :=
  {| ContentType := get_content_type local_path;
     StorageClass :=
       if String.eqb (storage_class st) "" then None else Some (storage_class st);
     Metadata :=
       match metadata with
       | None | Some [] => None
       | Some m => Some m
       end |}.

(** What a call of the transfer leaves untouched or only extends. *)
Record extends (st st' : state) : Prop := mk_extends {
  ext_icloud : icloud st' = icloud st;
  ext_s3_client : s3_client st' = s3_client st;
  ext_storage_class : storage_class st' = storage_class st;
  ext_state_file : state_file st' = state_file st;
  ext_processed : processed_files st ⊆ processed_files st';
  ext_trace : exists tr, trace st' = (trace st ++ tr)%list /\ EvSaveState ∉ tr
}.

(** During the iteration answered by [io] the content of the item was
    seen at the destination: the probe answered true for the digest of
    the downloaded bytes, or [upload_file] returned without raising. *)
Definition confirmed (io : item_io) : Prop :=
  exists resp data,
    io_download io = Ret (Some resp) /\ raw_read resp = Ret data /\
    (probe_answer io (MD5.hexdigest data) = Ret true \/ io_upload_file io = Ret tt).

(** The same with the calls the transfer made between [st] and [st']:
    it stopped after a probe that answered true for the digest of the
    downloaded bytes, or the probe answered false and it went on to an
    upload of the scratch file that returned without raising. *)
Definition confirmed_by_call (io : item_io) (photo : Photo) (temp_dir : string)
    (st st' : state) : Prop :=
  exists resp data,
    io_download io = Ret (Some resp) /\ raw_read resp = Ret data /\
    let local_hash := MD5.hexdigest data in
    let s3_key := generate_s3_key photo (photo_filename photo) in
    let temp_file := path_join temp_dir (photo_filename photo) in
    (probe_answer io local_hash = Ret true /\
     trace st' = (trace st ++ [EvDownload (id photo); EvHeadObject s3_key])%list)
    \/
    (probe_answer io local_hash = Ret false /\ io_upload_file io = Ret tt /\
     exists extra,
       trace st' = (trace st ++ [EvDownload (id photo); EvHeadObject s3_key;
                                 EvUploadFile temp_file s3_key extra])%list /\
       In ("file-hash", local_hash) (default [] (Metadata extra))).

(** One iteration changes exactly one of [processed] and [errors], by
    one, and never touches [total] or [skipped]. *)
Definition one_counted (s s' : Stats) : Prop :=
  total s' = total s /\ skipped s' = skipped s /\
  ((processed s' = processed s + 1 /\ errors s' = errors s /\
    (uploaded s' = uploaded s \/ uploaded s' = uploaded s + 1))
   \/ (processed s' = processed s /\ errors s' = errors s + 1 /\
       uploaded s' = uploaded s)).

(** The number of iterations the loop runs when entered at index [i]
    with [n] photos to come. *)
Definition iterations (max_photos : option Z) (i : Z) (n : nat) : Z :=
  match max_photos with
  | Some m =>
      if negb (Z.eqb m 0) && (i <=? m)%Z && (m <? i + Z.of_nat n)%Z
      then m - i + 1 else Z.of_nat n
  | None => Z.of_nat n
  end.

(** A fresh process after both setup calls succeeded. *)
Definition ready (storage_class : string) (fs : gmap string (list byte))
    (disk : option json_file) : state :=
  set_s3_client (set_icloud (new_sync storage_class fs disk)).

(** An answer that is not a [KeyboardInterrupt]. *)
Definition calm {A} (r : res A) : Prop :=
  match r with Raise KeyboardInterrupt => False | _ => True end.

Definition calm_save (sv : save_io) : Prop :=
  calm (sv_open_w sv) /\ calm (sv_dump sv).

Definition calm_item (io : item_io) : Prop :=
  calm (io_download io) /\
  match io_download io with
  | Ret (Some resp) => calm (raw_read resp)
  | _ => True
  end /\
  calm (io_open_wb io) /\ calm (io_write io) /\ calm (io_head_object io) /\
  calm (io_upload_file io) /\ calm_save (io_save io).

(** What the loop as a whole leaves untouched or only extends. *)
Record grows (st st' : state) : Prop := mk_grows {
  gr_icloud : icloud st' = icloud st;
  gr_s3_client : s3_client st' = s3_client st;
  gr_storage_class : storage_class st' = storage_class st;
  gr_processed : processed_files st ⊆ processed_files st';
  gr_trace : exists tr, trace st' = (trace st ++ tr)%list
}.

(** The dictionary [stats] when the loop is entered. *)
Definition stats0 (photos : list Photo) : Stats :=
  mk_Stats (Z.of_nat (length photos)) 0 0 0 0.

(** The number of photos a whole run iterates over: the cap when it is
    set, not zero and within the list, the length of the list
    otherwise. *)
Definition iterated (max_photos : option Z) (n : nat) : Z :=
  match max_photos with
  | Some m => if (1 <=? m)%Z && (m <=? Z.of_nat n)%Z then m else Z.of_nat n
  | None => Z.of_nat n
  end.

(** A new process started over the disk a previous run left. *)
Definition restart (st : state) : state :=
  ready (storage_class st) (files st) (state_file st).

(** ** Further vocabulary *)

(** The number of calls of [save_sync_state] among the events of a
    trace. *)
Definition is_save (ev : event) : bool :=
  match ev with EvSaveState => true | _ => false end.

Definition count_saves (tr : list event) : Z :=
  Z.of_nat (length (List.filter is_save tr)).

(** The environment [E] with another inventory. *)
Definition with_photos (E : env) (photos : list Photo) : env :=
  mk_env (env_load E) (Ret photos) (env_temp_dir E) (env_item E) (env_final_save E).

(** The dictionary [stats] with another [total]. *)
Definition with_total (t : Z) (s : Stats) : Stats :=
  mk_Stats t (processed s) (uploaded s) (skipped s) (errors s).

Definition res_map {A B} (f : A -> B) (r : res A) : res B :=
  match r with Ret a => Ret (f a) | Raise e => Raise e end.

(** A string without the character [c]. *)
Fixpoint lacks (c : ascii) (s : string) : Prop :=
  match s with
  | String a s' => a <> c /\ lacks c s'
  | EmptyString => True
  end.

#[global] Instance lacks_dec c s : Decision (lacks c s).
Proof. induction s as [|a s IH]; cbn [lacks]; apply _. Defined.

(** The calls one transfer may make, in their order. *)
Definition transfer_calls (photo : Photo) (temp_dir : string) (extra : ExtraArgs)
    : list event :=
  let filename := photo_filename photo in
  [ EvDownload (id photo);
    EvHeadObject (generate_s3_key photo filename);
    EvUploadFile (path_join temp_dir filename) (generate_s3_key photo filename) extra ].

(** A lowercase hexadecimal digit, and a string of such digits. *)
Definition is_hex (a : ascii) : bool :=
  existsb (Ascii.eqb a) (list_ascii_of_string "0123456789abcdef").

Fixpoint all_hex (s : string) : bool :=
  match s with
  | String a s' => is_hex a && all_hex s'
  | EmptyString => true
  end.

(** The date [generate_s3_key] files a photo under: [created] when the
    photo has that attribute, [asset_date] otherwise. *)
Definition photo_date (photo : Photo) : option datetime :=
  match created photo with
  | Attr d => d
  | Absent =>
      match asset_date photo with
      | Attr d => d
      | Absent => None
      end
  end.

(** Its year and month, for a dated photo. *)
Definition partition_of (photo : Photo) : option (N * N) :=
  match photo_date photo with
  | Some d => Some (year d, month d)
  | None => None
  end.

(** The month of that date is one of the twelve. *)
Definition valid_month (photo : Photo) : bool :=
  match photo_date photo with
  | Some d => ((1 <=? month d)%N && (month d <=? 12)%N)%bool
  | None => true
  end.


(** * Sample inputs *)

(** An ETag as S3 sends it: the tag between double quotes. *)
Definition quoted (s : string) : string := String dquote (s ++ String dquote "").

Definition photo_a : Photo :=
  mk_Photo "A1" (Attr "IMG_1.JPG")
           (Attr (Some (mk_datetime 2024 3 "2024-03-05T10:00:00"))) Absent.

Definition photo_b : Photo :=
  mk_Photo "B2" (Attr "IMG_2.JPG")
           (Attr (Some (mk_datetime 2024 4 "2024-04-09T18:30:00"))) Absent.

(** The five bytes of [b"hello"]; their MD5 digest is
    [5d41402abc4b2a76b9719d911017c592]. *)
Definition hello : list byte := list_byte_of_string "hello".

Definition save_ok : save_io := mk_save_io "2024-06-01T12:00:00" (Ret tt) (Ret tt).

(** The object is at the destination and its ETag is the MD5 of the
    content. *)
Definition io_present : item_io :=
  mk_item_io (Ret (Some (mk_response (Ret hello)))) (Ret tt) (Ret tt)
             (Ret (Some (quoted "5d41402abc4b2a76b9719d911017c592")))
             "2024-06-01T11:59:00" (Ret tt) save_ok.

(** The object is at the destination with the same content, uploaded in
    the two parts [b"hel"] and [b"lo"]: its ETag is the MD5 of the two
    part digests followed by the number of parts, not the MD5 of the
    content. *)
Definition io_multipart : item_io :=
  mk_item_io (Ret (Some (mk_response (Ret hello)))) (Ret tt) (Ret tt)
             (Ret (Some (quoted "554a2f6105cc700b8cc987b5ddfb8102-2")))
             "2024-06-01T11:59:00" (Ret tt) save_ok.

(** The object is absent and the upload succeeds. *)
Definition io_absent : item_io :=
  mk_item_io (Ret (Some (mk_response (Ret hello)))) (Ret tt) (Ret tt)
             (Raise (ClientError "404"))
             "2024-06-01T11:59:00" (Ret tt) save_ok.

(** The object is absent and [upload_file] raises. *)
Definition io_upload_fails : item_io :=
  mk_item_io (Ret (Some (mk_response (Ret hello)))) (Ret tt) (Ret tt)
             (Raise (ClientError "404"))
             "2024-06-01T11:59:00" (Raise (OtherException "S3UploadFailedError")) save_ok.

(** The download answers with a falsy response. *)
Definition io_fetch_fails : item_io :=
  mk_item_io (Ret None) (Ret tt) (Ret tt) (Raise (ClientError "404"))
             "2024-06-01T11:59:00" (Ret tt) save_ok.

(** The connection drops while the body of the response is read. *)
Definition io_read_raises : item_io :=
  mk_item_io (Ret (Some (mk_response (Raise (OtherException "ConnectionError")))))
             (Ret tt) (Ret tt) (Raise (ClientError "404"))
             "2024-06-01T11:59:00" (Ret tt) save_ok.

(** [head_object] fails below the HTTP level: botocore raises an
    exception that is not a [ClientError]. *)
Definition io_probe_unreachable : item_io :=
  mk_item_io (Ret (Some (mk_response (Ret hello)))) (Ret tt) (Ret tt)
             (Raise (OtherException "EndpointConnectionError"))
             "2024-06-01T11:59:00" (Ret tt) save_ok.

(** The user presses Ctrl-C during the download. *)
Definition io_interrupted : item_io :=
  mk_item_io (Raise KeyboardInterrupt) (Ret tt) (Ret tt) (Raise (ClientError "404"))
             "2024-06-01T11:59:00" (Ret tt) save_ok.

Definition env_of (photos : list Photo) (item : Z -> item_io) : env :=
  mk_env (Ret tt) (Ret photos) "/tmp/tmpk3v9x2" item save_ok.

Definition fresh : state := ready "DEEP_ARCHIVE" ∅ None.

Definition scratch_a : string := "/tmp/tmpk3v9x2/IMG_1.JPG".

Definition main_ok : main_env := mk_main_env "DEEP_ARCHIVE" true true (Ret None).

(** Two photos: the first is uploaded, the second is interrupted. *)
Definition env_interrupted : env :=
  env_of [photo_a; photo_b] (fun i => if Z.eqb i 1 then io_absent else io_interrupted).

(** One photo, found at the destination with a matching ETag. *)
Definition run_present : res Stats * state :=
  sync_photos (env_of [photo_a] (fun _ => io_present)) None fresh.

(** One photo whose upload fails: the call, and the run around it. *)
Definition call_upload_fails : res bool * state :=
  download_and_upload_photo io_upload_fails photo_a "/tmp/tmpk3v9x2" fresh.

Definition run_upload_fails : res Stats * state :=
  sync_photos (env_of [photo_a] (fun _ => io_upload_fails)) None fresh.

(** One photo whose download breaks off. *)
Definition call_read_raises : res bool * state :=
  download_and_upload_photo io_read_raises photo_a "/tmp/tmpk3v9x2" fresh.


(** [main] over the interrupted inventory, on an empty disk. *)
Definition main_interrupted : Z * state := main main_ok env_interrupted ∅ None.

(** A first run whose only fetch fails, then a second run, in a new
    process over the disk the first one left, whose fetch succeeds. *)
Definition run_fetch_fails : res Stats * state :=
  sync_photos (env_of [photo_a] (fun _ => io_fetch_fails)) None fresh.

Definition run_retry : res Stats * state :=
  sync_photos (env_of [photo_a] (fun _ => io_absent)) None (restart (snd run_fetch_fails)).

(** A first run that uploads its only photo, then a second run. *)
Definition run_upload : res Stats * state :=
  sync_photos (env_of [photo_a] (fun _ => io_absent)) None fresh.

Definition run_again : res Stats * state :=
  sync_photos (env_of [photo_a] (fun _ => io_absent)) None (restart (snd run_upload)).

(** Two photos: the first is uploaded, the fetch of the second fails. *)
Definition env_mixed : env :=
  env_of [photo_a; photo_b] (fun i => if Z.eqb i 1 then io_absent else io_fetch_fails).

(** Two photos, both absent from the destination and uploaded. *)
Definition env_two : env := env_of [photo_a; photo_b] (fun _ => io_absent).

(** The state a complete run over [env_two] leaves. *)
Definition state_two : state := snd (sync_photos env_two None fresh).

(** The state in which the interrupt stops the loop over
    [env_interrupted]. *)
Definition loop_interrupted : state :=
  snd (photo_loop env_interrupted (env_temp_dir env_interrupted) None 1
         [photo_a; photo_b] (stats0 [photo_a; photo_b]) fresh).

(** ** Further sample inputs *)

(** A synchroniser that has one photo in its checkpoint set. *)
Definition state_one : state := set_processed_files {[ "A1_IMG_1.JPG" ]} fresh.

(** The checkpoint file cannot be opened for writing. *)
Definition save_denied : save_io :=
  mk_save_io "2024-06-01T12:00:00" (Raise (OtherException "PermissionError")) (Ret tt).

(** The disk fills up while the checkpoint is written. *)
Definition save_disk_full : save_io :=
  mk_save_io "2024-06-01T12:00:00" (Ret tt) (Raise (OtherException "OSError")).

(** An inventory that lists the same photo eleven times. *)
Definition env_eleven : env := env_of (replicate 11 photo_a) (fun _ => io_absent).

(** A photo whose [created] attribute is [None]. *)
Definition photo_undated : Photo := mk_Photo "C3" (Attr "IMG_3.JPG") (Attr None) Absent.

(** Another photo taken in March 2024. *)
Definition photo_march : Photo :=
  mk_Photo "Z9" (Attr "IMG_9.PNG")
           (Attr (Some (mk_datetime 2024 3 "2024-03-28T07:15:00"))) Absent.

(** The scratch file of [photo_a] on disk. *)
Definition state_scratch : state := set_files {[ scratch_a := hello ]} fresh.

(** An account with two-factor authentication; the code is [123456]. *)
Definition ic_2fa : icloud_io :=
  mk_icloud_io (Ret tt) true false (fun _ => Ret "123456")
               (fun _ => Raise (OtherException "ValueError"))
               (fun code => Ret (String.eqb code "123456")) []
               (fun _ => Ret true) (fun _ _ => Ret true).

(** An account with two-step authentication and one trusted device; the
    user selects device 7. *)
Definition ic_2sa : icloud_io :=
  mk_icloud_io (Ret tt) false true (fun _ => Ret "7") (fun _ => Ret 7)
               (fun _ => Ret true) [mk_device (Some "iPhone")]
               (fun _ => Ret true) (fun _ _ => Ret true).

(** A client can be built, the bucket does not exist. *)
Definition s3_no_bucket : s3_io :=
  mk_s3_io (fun _ _ => Ret tt) (fun _ => Raise (ClientError "404")).

(** A client can be built and the bucket is there. *)
Definition s3_ok : s3_io := mk_s3_io (fun _ _ => Ret tt) (fun _ => Ret tt).

(** The listing of the photos fails. *)
Definition env_no_listing : env :=
  mk_env (Ret tt) (Raise (OtherException "PyiCloudAPIResponseException"))
         "/tmp/tmpk3v9x2" (fun _ => io_absent) save_ok.

(** * Properties *)

(** ** Running the monad *)

(** Unfold the operations of the monad and project the record
    updates. *)
Ltac munfold :=
  cbv [bind ret raise lift try_except try_except_ClientError log_event
       get_processed_files processed_files_add open_wb write os_remove] in *;
  cbn [fst snd icloud s3_client storage_class processed_files files state_file trace
       set_processed_files set_files set_state_file set_trace is_Exception] in *.

(** Case on the innermost scrutinee of [H], keeping the equation. *)
Ltac mcase H :=
  match type of H with
  | context [match ?x with _ => _ end] =>
      lazymatch x with
      | context [match _ with _ => _ end] => fail
      | _ => destruct x eqn:?
      end
  end.

(** [EvSaveState] is none of the events of a literal list. *)
Ltac no_save :=
  repeat (apply not_elem_of_cons; split; [discriminate|]); apply not_elem_of_nil.

(** [extends st st'] when [st'] is [st] under record updates. *)
Ltac extends_tac :=
  constructor; cbn [icloud s3_client storage_class processed_files files state_file
                    trace set_processed_files set_files set_state_file set_trace];
  [ reflexivity | reflexivity | reflexivity | reflexivity | set_solver
  | rewrite <- ?app_assoc; eexists; split; [reflexivity|]; cbn [app]; no_save ].

Lemma extends_refl st : extends st st.
Proof. constructor; try done. exists []. rewrite app_nil_r. split; [done|]. apply not_elem_of_nil. Qed.

Lemma extends_trans st1 st2 st3 : extends st1 st2 -> extends st2 st3 -> extends st1 st3.
Proof.
  intros [? ? ? ? ? (tr1 & Ht1 & ?)] [? ? ? ? ? (tr2 & Ht2 & ?)].
  constructor; try congruence; [set_solver|].
  exists (tr1 ++ tr2)%list. rewrite Ht2, Ht1, app_assoc. split; [done|].
  rewrite elem_of_app. tauto.
Qed.

Create HintDb sync discriminated.
#[local] Hint Resolve extends_refl : sync.

(** ** hashlib.md5 on the test suite of RFC 1321 *)

Example md5_empty : MD5.hexdigest MD5.new = "d41d8cd98f00b204e9800998ecf8427e".
Proof. vm_compute. reflexivity. Qed.

Example md5_abc :
  MD5.hexdigest (MD5.update MD5.new (list_byte_of_string "abc"))
  = "900150983cd24fb0d6963f7d28e17f72".
Proof. vm_compute. reflexivity. Qed.

Example md5_digits :
  MD5.hexdigest (MD5.update MD5.new (list_byte_of_string
    "12345678901234567890123456789012345678901234567890123456789012345678901234567890"))
  = "57edf4a22be3c955ac49da2e2107b67a".
Proof. vm_compute. reflexivity. Qed.

(** Feeding the hash object in two calls or in one gives the same
    digest. *)
Example md5_two_updates :
  MD5.hexdigest (MD5.update (MD5.update MD5.new (list_byte_of_string "hel"))
                            (list_byte_of_string "lo"))
  = "5d41402abc4b2a76b9719d911017c592".
Proof. vm_compute. reflexivity. Qed.

(** ** The helpers of the transfer *)

Lemma hash_chunks_app n h rest :
  (length rest <= n)%nat -> hash_chunks n h rest = (h ++ rest)%list.
Proof.
  revert h rest. induction n as [|n IH]; intros h rest Hlen.
  - destruct rest; [|simpl in Hlen; lia]. cbn [hash_chunks]. by rewrite app_nil_r.
  - destruct rest as [|b rest]; [cbn [hash_chunks]; by rewrite app_nil_r|].
    cbn [hash_chunks]. rewrite IH.
    + unfold MD5.update. rewrite <- app_assoc. by rewrite take_drop.
    + rewrite length_drop. cbn [length] in *. lia.
Qed.

Lemma get_file_hash_run path st :
  get_file_hash path st =
  match files st !! path with
  | Some data => (Ret (MD5.hexdigest data), st)
  | None => (Raise (OtherException "FileNotFoundError"), st)
  end.
Proof.
  unfold get_file_hash, bind, open_rb, ret.
  destruct (files st !! path) as [data|]; [|done].
  by rewrite hash_chunks_app.
Qed.

Lemma file_exists_in_s3_run io s3_key local_hash st :
  file_exists_in_s3 io s3_key local_hash st =
  (probe_answer io local_hash, set_trace (trace st ++ [EvHeadObject s3_key]) st).
Proof.
  unfold file_exists_in_s3, probe_answer. munfold.
  destruct (io_head_object io) as [tag|[code| |]]; try done.
  by destruct (String.eqb code "404").
Qed.

Lemma upload_to_s3_run io local_path s3_key metadata st :
  upload_to_s3 io local_path s3_key metadata st =
  (upload_answer io,
   set_trace (trace st ++ [EvUploadFile local_path s3_key
                             (upload_extra_args st local_path metadata)]) st).
Proof.
  unfold upload_to_s3, upload_answer, upload_extra_args. munfold.
  destruct (io_upload_file io) as [[]|[code| |]]; reflexivity.
Qed.

(** One step of a run recorded in [H]: rewrite a helper by its
    equation, read back a file just written, or case on an answer of
    the environment. *)
Ltac mstep H :=
  first [ rewrite get_file_hash_run in H
        | rewrite file_exists_in_s3_run in H
        | rewrite upload_to_s3_run in H
        | rewrite lookup_insert_eq in H
        | mcase H ];
  munfold.

(** ** One call of [download_and_upload_photo] *)

Lemma download_and_upload_photo_fast io photo temp_dir st :
  photo_key photo ∈ processed_files st ->
  download_and_upload_photo io photo temp_dir st = (Ret true, st).
Proof.
  intros Hin. unfold download_and_upload_photo. munfold.
  fold (photo_key photo). by rewrite bool_decide_eq_true_2.
Qed.

Lemma download_and_upload_photo_inv io photo temp_dir st r st' :
  download_and_upload_photo io photo temp_dir st = (r, st') ->
  extends st st' /\
  (r = Ret true \/ r = Ret false \/ r = Raise KeyboardInterrupt) /\
  (forall k, k ∈ processed_files st' -> k ∉ processed_files st ->
     k = photo_key photo /\ r = Ret true /\ confirmed_by_call io photo temp_dir st st').
Proof.
  intros Hrun. unfold download_and_upload_photo in Hrun. munfold.
  case_bool_decide.
  { simplify_eq. split; [apply extends_refl|]. split; [auto|]. intros; done. }
  repeat mstep Hrun; simplify_eq.
  all: repeat match goal with
         | H : is_Exception ?e = false |- _ => destruct e; try discriminate H; clear H
         end.
  all: split; [extends_tac|].
  all: split; [auto|].
  all: cbn [processed_files set_processed_files set_files set_trace].
  all: try (intros k Hin Hout; exfalso; exact (Hout Hin)).
  all: intros k Hin Hout; split;
         [apply elem_of_union in Hin as [Hin|Hin];
          [by apply elem_of_singleton in Hin | done]|];
         split; [done|].
  all: do 2 eexists; split; [eassumption|]; split; [eassumption|]; cbn zeta.
  all: cbn [trace set_trace set_files set_processed_files]; rewrite <- ?app_assoc.
  all: first
         [ left; split; [assumption|reflexivity]
         | right; split; [assumption|]; split;
           [ unfold upload_answer in *;
             destruct (io_upload_file io) as [[]|[]]; by simplify_eq
           | eexists; split; [reflexivity|]; cbn; tauto ] ].
Qed.

Lemma confirmed_by_call_confirmed io photo temp_dir st st' :
  confirmed_by_call io photo temp_dir st st' -> confirmed io.
Proof.
  intros (resp & data & Hdl & Hrd & [[? _]|(_ & ? & _)]);
    exists resp, data; auto.
Qed.

(** ** One iteration *)

Lemma process_photo_inv io photo temp_dir stats st r st' :
  process_photo io photo temp_dir stats st = (r, st') ->
  extends st st' /\
  (r = Raise KeyboardInterrupt \/ exists s', r = Ret s' /\ one_counted stats s') /\
  (forall k, k ∈ processed_files st' -> k ∉ processed_files st ->
     k = photo_key photo /\ confirmed io).
Proof.
  unfold process_photo. munfold.
  destruct (download_and_upload_photo io photo temp_dir st) as [r0 st0] eqn:Hrun.
  apply download_and_upload_photo_inv in Hrun as (Hext & Hr & Hadd).
  intros Hp.
  assert (st' = st0) as ->
    by (destruct Hr as [->|[->| ->]]; [case_bool_decide| |]; munfold; by simplify_eq).
  split; [done|]. split.
  - destruct Hr as [->|[->| ->]]; [case_bool_decide| |]; munfold; simplify_eq;
      [right|right|right|left]; try done;
      eexists; (split; [reflexivity|]); unfold one_counted; cbn; intuition lia.
  - intros k Hin Hout. destruct (Hadd k Hin Hout) as (? & _ & ?).
    eauto using confirmed_by_call_confirmed.
Qed.

Lemma process_photo_fast io photo temp_dir stats st :
  photo_key photo ∈ processed_files st ->
  process_photo io photo temp_dir stats st =
  (Ret (incr_uploaded (incr_processed stats)), st).
Proof.
  intros Hin. unfold process_photo. munfold.
  rewrite download_and_upload_photo_fast by done.
  fold (photo_key photo). by rewrite bool_decide_eq_true_2.
Qed.

(** With no interrupt among its answers a call of the transfer
    returns. *)
Lemma download_and_upload_photo_calm io photo temp_dir st :
  calm_item io ->
  exists ok, fst (download_and_upload_photo io photo temp_dir st) = Ret ok.
Proof.
  intros (Hdl & Hrd & Hop & Hwr & Hhd & Hup & _).
  destruct (download_and_upload_photo io photo temp_dir st) as [r st'] eqn:Hrun.
  apply download_and_upload_photo_inv in Hrun as Hinv.
  destruct Hinv as (_ & [->|[->| ->]] & _); cbn; eauto.
  exfalso. unfold download_and_upload_photo in Hrun. munfold.
  case_bool_decide; [done|].
  repeat mstep Hrun; simplify_eq; cbn [calm] in *; try done.
  all: unfold probe_answer, upload_answer in *.
  all: try (destruct (io_upload_file _) as [[]|[]]; cbn [calm] in *; by simplify_eq).
  all: destruct (io_head_object _) as [?|[]]; cbn [calm] in *; by simplify_eq.
Qed.

Lemma process_photo_calm io photo temp_dir stats st :
  calm_item io ->
  exists s, fst (process_photo io photo temp_dir stats st) = Ret s.
Proof.
  intros Hcalm. unfold process_photo. munfold.
  destruct (download_and_upload_photo_calm io photo temp_dir st Hcalm) as [ok Hok].
  destruct (download_and_upload_photo io photo temp_dir st) as [r st']. cbn in Hok.
  subst r. destruct ok; [case_bool_decide|]; cbn; eauto.
Qed.

Lemma save_sync_state_inv sv st r st' :
  save_sync_state sv st = (r, st') ->
  icloud st' = icloud st /\ s3_client st' = s3_client st /\
  storage_class st' = storage_class st /\
  processed_files st' = processed_files st /\ files st' = files st /\
  trace st' = (trace st ++ [EvSaveState])%list /\
  (r = Ret tt \/ r = Raise KeyboardInterrupt).
Proof.
  unfold save_sync_state. munfold. intros Hrun.
  repeat mcase Hrun; munfold; simplify_eq; cbn; repeat split; auto.
  all: match goal with
       | H : is_Exception ?e = false |- _ => destruct e; try discriminate H; auto
       end.
Qed.

Lemma save_sync_state_calm sv st :
  calm_save sv -> fst (save_sync_state sv st) = Ret tt.
Proof.
  intros [Ho Hd]. unfold save_sync_state. munfold.
  destruct (sv_open_w sv) as [[]|[]]; cbn in *; try done.
  all: destruct (sv_dump sv) as [[]|[]]; cbn in *; done.
Qed.

(** A save that meets no failure leaves the set in memory on disk. *)
Lemma save_sync_state_written sv st :
  sv_open_w sv = Ret tt -> sv_dump sv = Ret tt ->
  save_sync_state sv st =
  (Ret tt, set_state_file (Some (StateJson (processed_files st) (sv_now sv)))
             (set_trace (trace st ++ [EvSaveState]) st)).
Proof. intros Ho Hd. unfold save_sync_state. munfold. by rewrite Ho, Hd. Qed.

Lemma load_sync_state_inv E st r st' :
  load_sync_state E st = (r, st') ->
  icloud st' = icloud st /\ s3_client st' = s3_client st /\
  storage_class st' = storage_class st /\
  files st' = files st /\ state_file st' = state_file st /\ trace st' = trace st /\
  (r = Ret tt \/ r = Raise KeyboardInterrupt) /\
  (processed_files st' = processed_files st \/
   exists stamp, state_file st = Some (StateJson (processed_files st') stamp)).
Proof.
  unfold load_sync_state. munfold. intros Hrun.
  repeat mcase Hrun; munfold; simplify_eq; cbn; split_and!; eauto.
  all: match goal with
       | H : is_Exception ?e = false |- _ => destruct e; try discriminate H; auto
       end.
Qed.

(** ** The loop *)

Lemma iterations_nil max_photos i : iterations max_photos i 0 = 0.
Proof.
  unfold iterations. destruct max_photos as [m|]; [|done].
  destruct (Z.leb_spec i m), (Z.ltb_spec m (i + Z.of_nat 0));
    rewrite ?andb_false_r; cbn [andb]; try done; lia.
Qed.

Lemma iterations_stop max_photos i n :
  reached_max max_photos i = true -> iterations max_photos i (S n) = 1.
Proof.
  unfold reached_max, iterations. destruct max_photos as [m|]; [|done].
  intros [Hm ->%Z.eqb_eq]%andb_prop. rewrite Hm.
  rewrite (proj2 (Z.leb_le m m)) by lia.
  rewrite (proj2 (Z.ltb_lt m (m + Z.of_nat (S n)))) by lia.
  cbn. lia.
Qed.

Lemma iterations_go max_photos i n :
  reached_max max_photos i = false ->
  iterations max_photos i (S n) = 1 + iterations max_photos (i + 1) n.
Proof.
  unfold reached_max, iterations. destruct max_photos as [m|]; [|lia].
  destruct (Z.eqb m 0) eqn:Hm; cbn [negb andb]; [lia|].
  intros Hne%Z.eqb_neq.
  destruct (Z.leb_spec i m), (Z.ltb_spec m (i + Z.of_nat (S n))),
    (Z.leb_spec (i + 1) m), (Z.ltb_spec m (i + 1 + Z.of_nat n)); cbn [andb]; lia.
Qed.

Lemma grows_refl st : grows st st.
Proof. constructor; try done. exists []. by rewrite app_nil_r. Qed.

Lemma grows_trans st1 st2 st3 : grows st1 st2 -> grows st2 st3 -> grows st1 st3.
Proof.
  intros [? ? ? ? (tr1 & Ht1)] [? ? ? ? (tr2 & Ht2)].
  constructor; try congruence; [set_solver|].
  exists (tr1 ++ tr2)%list. by rewrite Ht2, Ht1, app_assoc.
Qed.

Lemma extends_grows st st' : extends st st' -> grows st st'.
Proof. intros [? ? ? ? ? (tr & ? & ?)]. constructor; eauto. Qed.

#[local] Hint Resolve grows_refl extends_grows : sync.

Lemma save_grows sv st r st' : save_sync_state sv st = (r, st') -> grows st st'.
Proof.
  intros (? & ? & ? & Hp & ? & ? & ?)%save_sync_state_inv.
  constructor; eauto. by rewrite Hp.
Qed.

Section Loop.

Variables (E : env) (temp_dir : string) (max_photos : option Z).

Lemma periodic_save_inv i st r st' :
  periodic_save E i st = (r, st') ->
  grows st st' /\ processed_files st' = processed_files st /\ files st' = files st /\
  (r = Ret tt \/ r = Raise KeyboardInterrupt) /\
  exists tr, trace st' = (trace st ++ tr)%list /\ forall ev, ev ∈ tr -> ev = EvSaveState.
Proof.
  unfold periodic_save. destruct (Z.eqb (i mod 10) 0).
  - intros Hs. pose proof (save_grows _ _ _ _ Hs).
    apply save_sync_state_inv in Hs as (? & ? & ? & ? & ? & ? & ?).
    split_and!; try done. exists [EvSaveState]. split; [done|].
    by intros ev ->%list_elem_of_singleton.
  - intros [= <- <-]. split_and!; auto with sync.
    exists []. rewrite app_nil_r. split; [done|]. by intros ev ?%elem_of_nil.
Qed.

Lemma photo_loop_unfold i photo rest stats :
  photo_loop E temp_dir max_photos i (photo :: rest) stats =
  (let* stats := process_photo (env_item E i) photo temp_dir stats in
   let* _ := periodic_save E i in
   if reached_max max_photos i then ret stats
   else photo_loop E temp_dir max_photos (i + 1) rest stats).
Proof. reflexivity. Qed.

Lemma photo_loop_inv photos :
  forall i stats st r st',
    photo_loop E temp_dir max_photos i photos stats st = (r, st') ->
    grows st st' /\
    (r = Raise KeyboardInterrupt \/
     exists s', r = Ret s' /\ total s' = total stats /\ skipped s' = skipped stats /\
       processed s' + errors s' =
       processed stats + errors stats + iterations max_photos i (length photos)) /\
    (forall k, k ∈ processed_files st' -> k ∉ processed_files st ->
       exists (j : nat) photo,
         photos !! j = Some photo /\ k = photo_key photo /\
         confirmed (env_item E (i + Z.of_nat j))).
Proof.
  induction photos as [|photo rest IH]; intros i stats st r st' Hrun.
  - cbn in Hrun. unfold ret in Hrun. simplify_eq.
    split; [auto with sync|]. split; [|done].
    right. eexists. rewrite iterations_nil. split_and!; [done|done|done|lia].
  - rewrite photo_loop_unfold in Hrun. unfold bind at 1 in Hrun.
    destruct (process_photo (env_item E i) photo temp_dir stats st) as [r1 st1] eqn:H1.
    apply process_photo_inv in H1 as (Hext & Hr1 & Hadd1).
    destruct Hr1 as [->|(s1 & -> & Hc)].
    { simplify_eq. split; [auto with sync|]. split; [by left|].
      intros k Hin Hout. exists 0%nat, photo. rewrite Z.add_0_r.
      destruct (Hadd1 k Hin Hout). done. }
    unfold bind at 1 in Hrun.
    destruct (periodic_save E i st1) as [r2 st2] eqn:H2.
    apply periodic_save_inv in H2 as (Hg2 & Hp2 & _ & Hr2 & _).
    assert (Hfirst : forall k, k ∈ processed_files st2 -> k ∉ processed_files st ->
              exists (j : nat) photo0, (photo :: rest) !! j = Some photo0 /\
                k = photo_key photo0 /\ confirmed (env_item E (i + Z.of_nat j))).
    { intros k Hin Hout. rewrite Hp2 in Hin. exists 0%nat, photo. rewrite Z.add_0_r.
      destruct (Hadd1 k Hin Hout). done. }
    assert (Hg : grows st st2) by exact (grows_trans _ _ _ (extends_grows _ _ Hext) Hg2).
    destruct Hr2 as [-> | ->]; [|simplify_eq; split_and!; [done|by left|done]].
    destruct Hc as (Ht & Hs & Hc).
    destruct (reached_max max_photos i) eqn:Hmax.
    { unfold ret in Hrun. simplify_eq. split; [done|]. split; [|done].
      right. exists s1. cbn [length]. rewrite (iterations_stop _ _ _ Hmax).
      split_and!; try done. lia. }
    apply IH in Hrun as (Hg3 & Hr3 & Hadd3).
    split; [by eapply grows_trans|]. split.
    + destruct Hr3 as [->|(s3 & -> & ? & ? & Hsum)]; [by left|].
      right. exists s3. cbn [length]. rewrite (iterations_go _ _ _ Hmax).
      split_and!; try congruence. lia.
    + intros k Hin Hout.
      destruct (decide (k ∈ processed_files st2)) as [Hk|Hk]; [by apply Hfirst|].
      destruct (Hadd3 k Hin Hk) as (j & photo0 & Hj & -> & Hconf).
      exists (S j), photo0. split; [done|]. split; [done|].
      by replace (i + Z.of_nat (S j)) with (i + 1 + Z.of_nat j) by lia.
Qed.

(** When every photo to come is already in [processed_files], the loop
    makes no call other than the periodic saves. *)
Lemma photo_loop_all_marked photos :
  forall i stats st r st',
    (forall p, p ∈ photos -> photo_key p ∈ processed_files st) ->
    photo_loop E temp_dir max_photos i photos stats st = (r, st') ->
    processed_files st' = processed_files st /\ files st' = files st /\
    exists tr, trace st' = (trace st ++ tr)%list /\ forall ev, ev ∈ tr -> ev = EvSaveState.
Proof.
  induction photos as [|photo rest IH]; intros i stats st r st' Hall Hrun.
  - cbn in Hrun. unfold ret in Hrun. simplify_eq. split_and!; try done.
    exists []. rewrite app_nil_r. split; [done|]. by intros ev ?%elem_of_nil.
  - rewrite photo_loop_unfold in Hrun. unfold bind at 1 in Hrun.
    rewrite process_photo_fast in Hrun by (apply Hall; left).
    unfold bind at 1 in Hrun.
    destruct (periodic_save E i st) as [r2 st2] eqn:H2.
    apply periodic_save_inv in H2 as (_ & Hp2 & Hf2 & Hr2 & tr2 & Ht2 & Hev2).
    destruct Hr2 as [-> | ->]; [|simplify_eq; eauto].
    destruct (reached_max max_photos i).
    { unfold ret in Hrun. simplify_eq. eauto. }
    apply IH in Hrun as (Hp3 & Hf3 & tr3 & Ht3 & Hev3).
    + split_and!; try congruence. exists (tr2 ++ tr3)%list.
      rewrite Ht3, Ht2, app_assoc. split; [done|].
      intros ev [?|?]%elem_of_app; auto.
    + intros p Hp. rewrite Hp2. apply Hall. by right.
Qed.

Lemma photo_loop_calm photos :
  forall i stats st,
    (forall j, calm_item (env_item E j)) ->
    exists s, fst (photo_loop E temp_dir max_photos i photos stats st) = Ret s.
Proof.
  induction photos as [|photo rest IH]; intros i stats st Hcalm.
  - cbn. eauto.
  - rewrite photo_loop_unfold. unfold bind at 1.
    destruct (process_photo_calm (env_item E i) photo temp_dir stats st (Hcalm i))
      as [s1 Hs1].
    destruct (process_photo (env_item E i) photo temp_dir stats st) as [r1 st1].
    cbn in Hs1. subst r1. unfold bind at 1.
    assert (Hsave : fst (periodic_save E i st1) = Ret tt).
    { unfold periodic_save. destruct (Z.eqb (i mod 10) 0); [|done].
      apply save_sync_state_calm, (Hcalm i). }
    destruct (periodic_save E i st1) as [r2 st2]. cbn in Hsave. subst r2.
    destruct (reached_max max_photos i); [cbn; eauto|]. apply IH, Hcalm.
Qed.

End Loop.

(** ** A whole run *)

Lemma sync_photos_run E max_photos st st_l photos :
  icloud st = true -> s3_client st = true ->
  load_sync_state E st = (Ret tt, st_l) ->
  env_photos E = Ret photos ->
  sync_photos E max_photos st =
  match photos with
  | [] => (Ret (mk_Stats 0 0 0 0 0), st_l)
  | _ :: _ =>
      match photo_loop E (env_temp_dir E) max_photos 1 photos (stats0 photos) st_l with
      | (Ret s, st_i) =>
          match save_sync_state (env_final_save E) (rmtree (env_temp_dir E) st_i) with
          | (Ret _, st') => (Ret s, st')
          | (Raise e, st') => (Raise e, st')
          end
      | (Raise e, st_i) => (Raise e, rmtree (env_temp_dir E) st_i)
      end
  end.
Proof.
  intros Hi Hs Hl Hp. unfold sync_photos. rewrite Hi, Hs. cbn [negb orb].
  unfold bind at 1. rewrite Hl. unfold bind at 1, lift. rewrite Hp.
  destruct photos as [|p ps]; [done|].
  unfold bind at 1, with_TemporaryDirectory. fold (stats0 (p :: ps)).
  destruct (photo_loop _ _ _ _ _ _ _) as [[s|e] st_i]; [|done].
  unfold bind at 1. by destruct (save_sync_state _ _) as [[[]|e] st'].
Qed.

Lemma sync_photos_Ret E max_photos st stats st' :
  sync_photos E max_photos st = (Ret stats, st') ->
  exists st_l photos,
    icloud st = true /\ s3_client st = true /\
    load_sync_state E st = (Ret tt, st_l) /\ env_photos E = Ret photos /\
    ((photos = [] /\ stats = mk_Stats 0 0 0 0 0 /\ st' = st_l) \/
     (photos <> [] /\ exists st_i,
        photo_loop E (env_temp_dir E) max_photos 1 photos (stats0 photos) st_l
          = (Ret stats, st_i) /\
        save_sync_state (env_final_save E) (rmtree (env_temp_dir E) st_i) = (Ret tt, st'))).
Proof.
  intros Hrun.
  destruct (icloud st) eqn:Hi; [|unfold sync_photos in Hrun; rewrite Hi in Hrun; done].
  destruct (s3_client st) eqn:Hs;
    [|unfold sync_photos in Hrun; rewrite Hi, Hs in Hrun; done].
  destruct (load_sync_state E st) as [[[]|e] st_l] eqn:Hl;
    [|unfold sync_photos in Hrun; rewrite Hi, Hs in Hrun; cbn in Hrun;
      unfold bind at 1 in Hrun; rewrite Hl in Hrun; done].
  destruct (env_photos E) as [photos|e] eqn:Hp;
    [|unfold sync_photos in Hrun; rewrite Hi, Hs in Hrun; cbn in Hrun;
      unfold bind at 1 in Hrun; rewrite Hl in Hrun;
      unfold bind at 1, lift in Hrun; rewrite Hp in Hrun; done].
  rewrite (sync_photos_run E max_photos st st_l photos) in Hrun by done.
  exists st_l, photos. split_and!; try done.
  destruct photos as [|p ps]; [left; by simplify_eq|right].
  split; [done|].
  destruct (photo_loop _ _ _ _ _ _ _) as [[s|e] st_i]; [|done].
  exists st_i. destruct (save_sync_state _ _) as [[[]|e] st2]; by simplify_eq.
Qed.

(** ** Statistics *)

Lemma iterations_iterated max_photos n : iterations max_photos 1 n = iterated max_photos n.
Proof.
  unfold iterations, iterated. destruct max_photos as [m|]; [|done].
  destruct (Z.eqb_spec m 0), (Z.leb_spec 1 m), (Z.ltb_spec m (1 + Z.of_nat n)),
    (Z.leb_spec m (Z.of_nat n)); cbn [negb andb]; lia.
Qed.

Lemma sync_photos_stats E max_photos st stats st' photos :
  env_photos E = Ret photos ->
  sync_photos E max_photos st = (Ret stats, st') ->
  total stats = Z.of_nat (length photos) /\ skipped stats = 0 /\
  processed stats + errors stats = iterated max_photos (length photos).
Proof.
  intros Hp (st_l & photos' & _ & _ & _ & Hp' & Hcases)%sync_photos_Ret.
  rewrite Hp in Hp'. simplify_eq.
  destruct Hcases as [(-> & -> & _)|(_ & st_i & Hloop & _)].
  - split_and!; try done. unfold iterated. cbn [length processed errors].
    change (Z.of_nat 0) with 0.
    destruct max_photos as [m|]; [|done].
    destruct (Z.leb_spec 1 m), (Z.leb_spec m 0); cbn [andb]; lia.
  - apply photo_loop_inv in Hloop as (_ & [?|(s & ? & Ht & Hs & Hsum)] & _); [done|].
    simplify_eq. rewrite iterations_iterated in Hsum. cbn in *. split_and!; lia.
Qed.

(** The counter [skipped] is initialised and reported, and no statement
    of the loop changes it. *)
Lemma sync_photos_never_counts_skipped E max_photos st stats st' :
  sync_photos E max_photos st = (Ret stats, st') -> skipped stats = 0.
Proof.
  intros Hrun. destruct (sync_photos_Ret _ _ _ _ _ Hrun) as (_ & photos & _ & _ & _ & Hp & _).
  by destruct (sync_photos_stats _ _ _ _ _ _ Hp Hrun) as (_ & ? & _).
Qed.

(** C1 (the code departs from the claim).  One item, absent from the
    checkpoint, present at the destination with an ETag equal to the MD5
    of its content: the run makes no upload call and marks the key, and
    the statistics it returns have [uploaded = 1] and [skipped = 0],
    where the claim expects [skipped = 1] and [uploaded = 0]. *)
Theorem present_item_counted_as_uploaded :
  fst run_present = Ret (mk_Stats 1 1 1 0 0) /\
  trace (snd run_present)
    = [EvDownload "A1"; EvHeadObject "photos/2024/03/IMG_1.JPG"; EvSaveState] /\
  elements (processed_files (snd run_present)) = [photo_key photo_a].
Proof. vm_compute. auto. Qed.

(** C9.  Every iteration that completes adds one to exactly one of
    [processed] and [errors]; the statistics a run returns satisfy
    [processed + errors = ] the number of photos iterated: the cap when
    it stops the loop early, the size of the inventory otherwise. *)
Theorem processed_plus_errors_is_iterated E max_photos st stats st' photos :
  env_photos E = Ret photos ->
  sync_photos E max_photos st = (Ret stats, st') ->
  processed stats + errors stats = iterated max_photos (length photos) /\
  (forall io photo temp_dir s st1 s' st1',
     process_photo io photo temp_dir s st1 = (Ret s', st1') -> one_counted s s').
Proof.
  intros Hp Hrun. split.
  - by destruct (sync_photos_stats _ _ _ _ _ _ Hp Hrun) as (_ & _ & ?).
  - intros io photo temp_dir s st1 s' st1' H1.
    apply process_photo_inv in H1 as (_ & [?|(s2 & ? & ?)] & _); by simplify_eq.
Qed.

Lemma processed_plus_errors_is_iterated_witness :
  env_photos env_mixed = Ret [photo_a; photo_b] /\
  sync_photos env_mixed (Some 5) fresh
    = (Ret (mk_Stats 2 1 1 0 1), snd (sync_photos env_mixed (Some 5) fresh)) /\
  1 + 1 = iterated (Some 5) 2.
Proof.
  split; [reflexivity|]. split; [vm_compute; reflexivity|].
  exact (proj1 (processed_plus_errors_is_iterated
                  env_mixed (Some 5) fresh (mk_Stats 2 1 1 0 1) _ [photo_a; photo_b]
                  eq_refl ltac:(vm_compute; reflexivity))).
Defined.

(** ** The transfer of one item *)

(** An upload that raises an ordinary exception: the call returns [True]
    all the same, and the key stays out of [processed_files]. *)
Lemma upload_failure_returns_true io photo temp_dir st resp data e :
  photo_key photo ∉ processed_files st ->
  io_download io = Ret (Some resp) -> io_open_wb io = Ret tt ->
  raw_read resp = Ret data -> io_write io = Ret tt ->
  probe_answer io (MD5.hexdigest data) = Ret false ->
  created photo <> Attr None ->
  io_upload_file io = Raise e -> is_Exception e = true ->
  let run := download_and_upload_photo io photo temp_dir st in
  fst run = Ret true /\ processed_files (snd run) = processed_files st /\
  files (snd run) !! path_join temp_dir (photo_filename photo) = None.
Proof.
  intros Hout Hdl Hop Hrd Hwr Hprobe Hcr Hup He.
  unfold download_and_upload_photo. munfold.
  rewrite bool_decide_eq_false_2 by done.
  rewrite Hdl, Hop, Hrd, Hwr. munfold.
  rewrite get_file_hash_run. munfold. rewrite lookup_insert_eq.
  rewrite file_exists_in_s3_run, Hprobe.
  destruct (created photo) as [|[d|]]; [| |done]; munfold.
  all: rewrite upload_to_s3_run; unfold upload_answer; rewrite Hup.
  all: destruct e; try discriminate He; munfold.
  all: rewrite lookup_insert_eq; cbn; split_and!; try done; apply lookup_delete_eq.
Qed.

(** C3 (the code departs from the claim).  An item whose upload raises:
    [download_and_upload_photo] returns [True], not [False], so the run
    counts the item under [processed] and not under [errors]; the key
    is not added to [processed_files]. *)
Theorem failed_upload_returns_true :
  fst call_upload_fails = Ret true /\
  elements (processed_files (snd call_upload_fails)) = [] /\
  fst run_upload_fails = Ret (mk_Stats 1 1 0 0 0).
Proof. vm_compute. auto. Qed.

(** On every return of [True] the scratch file is gone. *)
Lemma scratch_removed_on_true io photo temp_dir st st' :
  photo_key photo ∉ processed_files st ->
  download_and_upload_photo io photo temp_dir st = (Ret true, st') ->
  files st' !! path_join temp_dir (photo_filename photo) = None.
Proof.
  intros Hout Hrun. unfold download_and_upload_photo in Hrun. munfold.
  case_bool_decide; [done|].
  repeat mstep Hrun; simplify_eq; cbn; apply lookup_delete_eq.
Qed.

(** C6 (the code departs from the claim).  The connection drops while
    the body of the download is read, after [open(temp_file, 'wb')] has
    created the scratch file: the exception is caught inside
    [download_and_upload_photo], which returns [False] and leaves the
    scratch file in place. *)
Theorem scratch_file_left_after_caught_exception :
  fst call_read_raises = Ret false /\
  path_join "/tmp/tmpk3v9x2" (photo_filename photo_a) = scratch_a /\
  files fresh !! scratch_a = None /\
  files (snd call_read_raises) !! scratch_a = Some [].
Proof. vm_compute. auto. Qed.

(** What such a call leaves behind stays until the run ends: leaving the
    [with tempfile.TemporaryDirectory()] block of [sync_photos] removes
    every file under the directory. *)
Lemma rmtree_clean dir st path : in_dir dir path -> files (rmtree dir st) !! path = None.
Proof.
  intros Hin. unfold rmtree. cbn [files set_files].
  apply map_lookup_filter_None. right. intros data _ Hkeep. by apply Hkeep.
Qed.

Lemma sync_photos_leaves_no_scratch E max_photos st stats st' p ps path :
  env_photos E = Ret (p :: ps) ->
  sync_photos E max_photos st = (Ret stats, st') ->
  in_dir (env_temp_dir E) path -> files st' !! path = None.
Proof.
  intros Hp (st_l & photos & _ & _ & _ & Hp' & Hcases)%sync_photos_Ret Hin.
  rewrite Hp in Hp'. simplify_eq.
  destruct Hcases as [(? & _)|(_ & st_i & _ & Hsave)]; [done|].
  apply save_sync_state_inv in Hsave as (_ & _ & _ & _ & -> & _).
  by apply rmtree_clean.
Qed.



(** Over a whole run: a key found in [processed_files] at the end was
    there when the loop started, or is the key of a photo of the
    inventory whose iteration confirmed it. *)
Lemma sync_photos_marks_confirmed E max_photos st stats st' :
  sync_photos E max_photos st = (Ret stats, st') ->
  exists st_l photos,
    load_sync_state E st = (Ret tt, st_l) /\ env_photos E = Ret photos /\
    forall k, k ∈ processed_files st' ->
      k ∈ processed_files st_l \/
      exists (j : nat) photo,
        photos !! j = Some photo /\ k = photo_key photo /\
        confirmed (env_item E (1 + Z.of_nat j)).
Proof.
  intros (st_l & photos & _ & _ & Hl & Hp & Hcases)%sync_photos_Ret.
  exists st_l, photos. split; [done|]. split; [done|]. intros k Hk.
  destruct Hcases as [(_ & _ & ->)|(_ & st_i & Hloop & Hsave)]; [by left|].
  apply save_sync_state_inv in Hsave as (_ & _ & _ & Hps & _).
  rewrite Hps in Hk. cbn in Hk.
  destruct (decide (k ∈ processed_files st_l)) as [|Hout]; [by left|right].
  apply photo_loop_inv in Hloop as (_ & _ & Hadd). by apply Hadd.
Qed.

(** ** The probe *)

(** C8 (as stated it fails).  [head_object] raises an exception that is
    not a [ClientError]: [file_exists_in_s3] does not return [False],
    the exception reaches its caller. *)
Lemma probe_raises_when_unreachable :
  fst (file_exists_in_s3 io_probe_unreachable "photos/2024/03/IMG_1.JPG"
         "5d41402abc4b2a76b9719d911017c592" fresh)
  = Raise (OtherException "EndpointConnectionError").
Proof. reflexivity. Qed.

(** C8 (amended).  [file_exists_in_s3] logs one [head_object] call and
    answers as follows: when the call returns, true exactly when the
    ETag of the response (the empty string when there is none), with
    the double quotes around it stripped, equals the expected hash;
    false when the call raises a [ClientError], with code 404 or any
    other; an exception of another class is raised to the caller. *)
Theorem file_exists_in_s3_answers io s3_key local_hash st :
  file_exists_in_s3 io s3_key local_hash st =
  (match io_head_object io with
   | Ret tag => Ret (bool_decide (strip dquote (default "" tag) = local_hash))
   | Raise (ClientError _) => Ret false
   | Raise e => Raise e
   end,
   set_trace (trace st ++ [EvHeadObject s3_key]) st).
Proof.
  rewrite file_exists_in_s3_run. unfold probe_answer.
  destruct (io_head_object io) as [tag|e]; [|done].
  do 2 f_equal. destruct (String.eqb_spec (strip dquote (default "" tag)) local_hash).
  - by rewrite bool_decide_eq_true_2.
  - by rewrite bool_decide_eq_false_2.
Qed.

(** The probe compares the ETag, with the double quotes around it
    stripped, with the local MD5 hex digest for string equality.  For a
    photo whose [created] attribute is absent or a datetime, a tag that
    differs sends the item, once downloaded, to the upload: the calls
    of the transfer are one download, one [head_object] and one
    [upload_file] of the scratch file. *)
Lemma tag_mismatch_reuploads io photo temp_dir st resp data tag :
  photo_key photo ∉ processed_files st ->
  io_download io = Ret (Some resp) -> io_open_wb io = Ret tt ->
  raw_read resp = Ret data -> io_write io = Ret tt ->
  io_head_object io = Ret (Some tag) ->
  strip dquote tag <> MD5.hexdigest data ->
  created photo <> Attr None ->
  let temp_file := path_join temp_dir (photo_filename photo) in
  let s3_key := generate_s3_key photo (photo_filename photo) in
  (forall key h st1,
     fst (file_exists_in_s3 io key h st1) = Ret (String.eqb (strip dquote tag) h)) /\
  exists extra,
    trace (snd (download_and_upload_photo io photo temp_dir st)) =
    (trace st ++ [EvDownload (id photo); EvHeadObject s3_key;
                  EvUploadFile temp_file s3_key extra])%list /\
    In ("file-hash", MD5.hexdigest data) (default [] (Metadata extra)).
Proof.
  intros Hout Hdl Hop Hrd Hwr Hhd Hne Hcr. cbn zeta. split.
  { intros key h st1. rewrite file_exists_in_s3_run. unfold probe_answer.
    rewrite Hhd. reflexivity. }
  unfold download_and_upload_photo. munfold.
  rewrite bool_decide_eq_false_2 by done.
  rewrite Hdl, Hop, Hrd, Hwr. munfold.
  rewrite get_file_hash_run. munfold. rewrite lookup_insert_eq.
  assert (Hprobe : probe_answer io (MD5.hexdigest data) = Ret false).
  { unfold probe_answer. rewrite Hhd. change (default "" (Some tag)) with tag.
    by rewrite (proj2 (String.eqb_neq _ _) Hne). }
  rewrite file_exists_in_s3_run, Hprobe.
  destruct (created photo) as [|[d|]]; [| |done]; munfold.
  all: rewrite upload_to_s3_run; munfold.
  all: eexists; split;
    [destruct (upload_answer io) as [[]|[]]; munfold; rewrite ?lookup_insert_eq;
     cbn; rewrite <- ?app_assoc; reflexivity|].
  all: cbn; tauto.
Qed.

Lemma tag_mismatch_reuploads_witness :
  (photo_key photo_a ∉ processed_files fresh) /\
  strip dquote (quoted "554a2f6105cc700b8cc987b5ddfb8102-2") <> MD5.hexdigest hello /\
  created photo_a <> Attr None /\
  (forall key h st1,
     fst (file_exists_in_s3 io_multipart key h st1)
     = Ret (String.eqb (strip dquote (quoted "554a2f6105cc700b8cc987b5ddfb8102-2")) h)) /\
  exists extra,
    trace (snd (download_and_upload_photo io_multipart photo_a "/tmp/tmpk3v9x2" fresh)) =
    (trace fresh ++ [EvDownload (id photo_a);
                     EvHeadObject (generate_s3_key photo_a (photo_filename photo_a));
                     EvUploadFile (path_join "/tmp/tmpk3v9x2" (photo_filename photo_a))
                       (generate_s3_key photo_a (photo_filename photo_a)) extra])%list /\
    In ("file-hash", MD5.hexdigest hello) (default [] (Metadata extra)).
Proof.
  assert (Hout : photo_key photo_a ∉ processed_files fresh) by (vm_compute; discriminate).
  assert (Hne : strip dquote (quoted "554a2f6105cc700b8cc987b5ddfb8102-2")
                <> MD5.hexdigest hello) by (vm_compute; discriminate).
  assert (Hcr : created photo_a <> Attr None) by discriminate.
  split; [exact Hout|]. split; [exact Hne|]. split; [exact Hcr|].
  exact (tag_mismatch_reuploads io_multipart photo_a "/tmp/tmpk3v9x2" fresh
           (mk_response (Ret hello)) hello (quoted "554a2f6105cc700b8cc987b5ddfb8102-2")
           Hout eq_refl eq_refl eq_refl eq_refl eq_refl Hne Hcr).
Defined.


(** ** Saving the checkpoint *)

Lemma rmtree_trace dir st : trace (rmtree dir st) = trace st.
Proof. reflexivity. Qed.

(** With both handles set, a readable inventory and no interrupt among
    the answers of the environment, a run returns its statistics. *)
Lemma sync_photos_completes E max_photos st photos :
  icloud st = true -> s3_client st = true ->
  calm (env_load E) -> env_photos E = Ret photos ->
  (forall j, calm_item (env_item E j)) -> calm_save (env_final_save E) ->
  exists stats, fst (sync_photos E max_photos st) = Ret stats.
Proof.
  intros Hi Hs Hload Hp Hitems Hfinal.
  destruct (load_sync_state E st) as [rl st_l] eqn:Hl.
  assert (rl = Ret tt) as ->.
  { pose proof Hl as (_ & _ & _ & _ & _ & _ & [ ? | -> ] & _)%load_sync_state_inv; [done|].
    exfalso. unfold load_sync_state in Hl. munfold.
    destruct (state_file st) as [[]|]; destruct (env_load E) as [[]|[]];
      cbn in *; by simplify_eq. }
  rewrite (sync_photos_run E max_photos st st_l photos) by done.
  destruct photos as [|p ps]; [cbn; eauto|].
  destruct (photo_loop_calm E (env_temp_dir E) max_photos (p :: ps) 1
              (stats0 (p :: ps)) st_l Hitems) as [s Hs'].
  destruct (photo_loop _ _ _ _ _ _ _) as [r st_i]. cbn in Hs'. subst r.
  pose proof (save_sync_state_calm (env_final_save E) (rmtree (env_temp_dir E) st_i)
                Hfinal) as Hsv.
  destruct (save_sync_state _ _) as [r st2]. cbn in Hsv. subst r. cbn. eauto.
Qed.


Lemma sync_photos_trace E max_photos st stats st' photos :
  env_photos E = Ret photos ->
  sync_photos E max_photos st = (Ret stats, st') ->
  match photos with
  | [] => trace st' = trace st
  | _ :: _ => exists tr, trace st' = (trace st ++ tr ++ [EvSaveState])%list
  end.
Proof.
  intros Hp (st_l & photos' & _ & _ & Hl & Hp' & Hcases)%sync_photos_Ret.
  rewrite Hp in Hp'. simplify_eq.
  apply load_sync_state_inv in Hl as (_ & _ & _ & _ & _ & Htl & _).
  destruct Hcases as [(-> & _ & ->)|(Hne & st_i & Hloop & Hsave)]; [done|].
  destruct photos' as [|p ps]; [done|].
  apply photo_loop_inv in Hloop as ([_ _ _ _ (tr & Htr)] & _).
  apply save_sync_state_inv in Hsave as (_ & _ & _ & _ & _ & Hts & _).
  exists tr. rewrite Hts, rmtree_trace, Htr, Htl. by rewrite app_assoc.
Qed.

(** With no interrupt among the answers of the environment, a run over
    an inventory that is not empty returns, and its last call is the
    save after the loop. *)
Lemma final_flush_executed E max_photos st p ps :
  icloud st = true -> s3_client st = true ->
  calm (env_load E) -> env_photos E = Ret (p :: ps) ->
  (forall j, calm_item (env_item E j)) -> calm_save (env_final_save E) ->
  exists stats st' tr,
    sync_photos E max_photos st = (Ret stats, st') /\
    trace st' = (trace st ++ tr ++ [EvSaveState])%list.
Proof.
  intros Hi Hs Hload Hp Hitems Hfinal.
  destruct (sync_photos_completes E max_photos st (p :: ps) Hi Hs Hload Hp Hitems Hfinal)
    as [stats Hstats].
  destruct (sync_photos E max_photos st) as [r st'] eqn:Hrun. cbn in Hstats. subst r.
  destruct (sync_photos_trace _ _ _ _ _ _ Hp Hrun) as [tr Htr]. eauto.
Qed.



(** ** Interrupts *)

(** C5 (as stated it fails).  The first photo is uploaded and marked,
    the user interrupts the download of the second: [main] exits with
    status 1, and no call of [save_sync_state] is made; the key marked
    in memory never reaches [sync_state.json]. *)
Lemma interrupt_is_not_flushed :
  fst main_interrupted = 1 /\
  elements (processed_files (snd main_interrupted)) = [photo_key photo_a] /\
  state_file (snd main_interrupted) = None /\
  EvSaveState ∉ trace (snd main_interrupted).
Proof.
  split_and!; [vm_compute; reflexivity..|].
  set (tr := trace _). vm_compute in tr. subst tr. no_save.
Qed.

(** C5 (amended).  When the loop of [sync_photos] is interrupted, the
    [KeyboardInterrupt] passes through [sync_photos], which only removes
    the temporary directory on its way out, and is caught in [main]:
    the exit status is 1 and the state is the one the interrupt found,
    with no further call of [save_sync_state]. *)
Theorem interrupt_exits_1_without_flush me E fs disk max_photos photos st_l st_i :
  m_setup_icloud me = true -> m_setup_s3 me = true ->
  m_max_photos me = Ret max_photos ->
  load_sync_state E (ready (m_storage_class me) fs disk) = (Ret tt, st_l) ->
  env_photos E = Ret photos ->
  photo_loop E (env_temp_dir E) max_photos 1 photos (stats0 photos) st_l
    = (Raise KeyboardInterrupt, st_i) ->
  main me E fs disk = (1, rmtree (env_temp_dir E) st_i) /\
  trace (snd (main me E fs disk)) = trace st_i /\
  state_file (snd (main me E fs disk)) = state_file st_i.
Proof.
  intros Hic Hs3 Hmax Hl Hp Hloop.
  assert (Hmain : main me E fs disk = (1, rmtree (env_temp_dir E) st_i)).
  { unfold main. rewrite Hic, Hs3. cbn [negb].
    unfold bind, lift. rewrite Hmax.
    fold (ready (m_storage_class me) fs disk).
    rewrite (sync_photos_run E max_photos _ st_l photos) by done.
    destruct photos as [|p ps]; [cbn in Hloop; unfold ret in Hloop; done|].
    by rewrite Hloop. }
  by rewrite Hmain.
Qed.

Lemma interrupt_exits_1_without_flush_witness :
  photo_loop env_interrupted (env_temp_dir env_interrupted) None 1
    [photo_a; photo_b] (stats0 [photo_a; photo_b]) fresh
    = (Raise KeyboardInterrupt, loop_interrupted) /\
  main main_ok env_interrupted ∅ None
    = (1, rmtree (env_temp_dir env_interrupted) loop_interrupted) /\
  trace (snd (main main_ok env_interrupted ∅ None)) = trace loop_interrupted /\
  state_file (snd (main main_ok env_interrupted ∅ None)) = state_file loop_interrupted.
Proof.
  assert (Hloop : photo_loop env_interrupted (env_temp_dir env_interrupted) None 1
                    [photo_a; photo_b] (stats0 [photo_a; photo_b]) fresh
                  = (Raise KeyboardInterrupt, loop_interrupted))
    by (vm_compute; reflexivity).
  split; [exact Hloop|].
  exact (interrupt_exits_1_without_flush main_ok env_interrupted ∅ None None
           [photo_a; photo_b] fresh _ eq_refl eq_refl eq_refl eq_refl eq_refl Hloop).
Defined.

(** ** Two runs *)

Lemma load_sync_state_ok E st :
  env_load E = Ret tt ->
  load_sync_state E st =
  (Ret tt, match state_file st with
           | Some (StateJson keys _) => set_processed_files keys st
           | _ => st
           end).
Proof.
  intros Hl. unfold load_sync_state. munfold. rewrite Hl.
  by destruct (state_file st) as [[]|].
Qed.

(** An item the first run failed on is retried: the fetch of the only
    item fails during the first run, which completes with [errors = 1];
    the second run over the same inventory fetches the item and uploads
    it. *)
Lemma second_run_uploads_retried_item :
  fst run_fetch_fails = Ret (mk_Stats 1 0 0 0 1) /\
  fst run_retry = Ret (mk_Stats 1 1 1 0 0) /\
  exists extra,
    trace (snd run_retry) =
    [EvDownload "A1"; EvHeadObject "photos/2024/03/IMG_1.JPG";
     EvUploadFile scratch_a "photos/2024/03/IMG_1.JPG" extra; EvSaveState].
Proof. vm_compute. split_and!; [done..|]. eexists. reflexivity. Qed.

(** C2 (the code departs from the claim).  A first run uploads its
    only photo and completes.  The second run over the same inventory
    resolves the photo from the checkpoint: its only call is the final
    save, it makes no download, no [head_object] and no upload, and yet
    it returns [uploaded = 1], not [uploaded = 0]. *)
Theorem second_run_counts_checkpoint_hit_as_uploaded :
  fst run_upload = Ret (mk_Stats 1 1 1 0 0) /\
  fst run_again = Ret (mk_Stats 1 1 1 0 0) /\
  trace (snd run_again) = [EvSaveState].
Proof. vm_compute. auto. Qed.

(** The calls of the second run, for every inventory.  A first run
    completes, its last save is written, and
    every item of the inventory is in [processed_files] when it ends.
    A second run, started as a new process over the same inventory and
    able to read the checkpoint, takes the checkpoint branch for every
    item: it makes no download, no [head_object] and no upload call;
    its only calls are saves of the checkpoint. *)
Lemma second_run_takes_fast_path E1 E2 max1 max2 st s1 st1 photos r2 st2 :
  env_photos E1 = Ret photos -> env_photos E2 = Ret photos ->
  sync_photos E1 max1 st = (Ret s1, st1) ->
  sv_open_w (env_final_save E1) = Ret tt -> sv_dump (env_final_save E1) = Ret tt ->
  (forall p, p ∈ photos -> photo_key p ∈ processed_files st1) ->
  env_load E2 = Ret tt ->
  sync_photos E2 max2 (restart st1) = (r2, st2) ->
  forall ev, ev ∈ trace st2 -> ev = EvSaveState.
Proof.
  intros Hp1 Hp2 Hrun1 Hopen Hdump Hall Hload Hrun2.
  rewrite (sync_photos_run E2 max2 (restart st1) _ photos eq_refl eq_refl
             (load_sync_state_ok E2 _ Hload) Hp2) in Hrun2.
  destruct photos as [|p ps].
  { simplify_eq. cbn. destruct (state_file st1) as [[]|]; cbn; by intros ev ?%elem_of_nil. }
  apply sync_photos_Ret in Hrun1 as (st_l & photos' & _ & _ & _ & Hp' & Hcases).
  rewrite Hp1 in Hp'. simplify_eq.
  destruct Hcases as [(? & _)|(_ & st_i & _ & Hsave)]; [done|].
  rewrite save_sync_state_written in Hsave by done. simplify_eq.
  cbn [restart ready new_sync set_icloud set_s3_client state_file set_state_file
       set_trace files storage_class icloud s3_client processed_files trace] in Hrun2.
  cbn [set_processed_files processed_files set_state_file set_trace] in Hall.
  destruct (photo_loop _ _ _ _ _ _ _) as [r st_i2] eqn:Hloop.
  eapply photo_loop_all_marked in Hloop; [|exact Hall].
  destruct Hloop as (_ & _ & tr & Htr & Hev).
  cbn in Htr.
  destruct r as [s|e].
  - destruct (save_sync_state _ _) as [rs st3] eqn:Hs3.
    apply save_sync_state_inv in Hs3 as (_ & _ & _ & _ & _ & Ht3 & _).
    assert (st2 = st3) as -> by (destruct rs; by simplify_eq).
    rewrite Ht3, rmtree_trace, Htr. intros ev [?|?%list_elem_of_singleton]%elem_of_app; auto.
  - injection Hrun2 as <- <-. rewrite rmtree_trace, Htr. auto.
Qed.

Lemma second_run_takes_fast_path_witness :
  sync_photos env_two None fresh = (Ret (mk_Stats 2 2 2 0 0), state_two) /\
  (forall p, p ∈ [photo_a; photo_b] -> photo_key p ∈ processed_files state_two) /\
  forall ev, ev ∈ trace (snd (sync_photos env_two None (restart state_two))) ->
             ev = EvSaveState.
Proof.
  assert (Hrun1 : sync_photos env_two None fresh = (Ret (mk_Stats 2 2 2 0 0), state_two))
    by (vm_compute; reflexivity).
  assert (Hall : forall p, p ∈ [photo_a; photo_b] ->
                           photo_key p ∈ processed_files state_two).
  { intros p [->|[->|[]%elem_of_nil]%elem_of_cons]%elem_of_cons;
      vm_compute; reflexivity. }
  split; [exact Hrun1|]. split; [exact Hall|].
  exact (second_run_takes_fast_path env_two env_two None None fresh
           (mk_Stats 2 2 2 0 0) state_two [photo_a; photo_b] _ _
           eq_refl eq_refl Hrun1 eq_refl eq_refl Hall eq_refl
           (surjective_pairing _)).
Defined.

(** * Further properties of the code *)

(** ** The checkpoint file *)

(** X1.  A checkpoint that [save_sync_state] writes without an I/O
    error is read back by [load_sync_state] in the next process: the
    save returns, the load returns, and the set the load installs is the
    set that was in memory at the save. *)
Theorem save_then_load_round_trip sv E st :
  sv_open_w sv = Ret tt -> sv_dump sv = Ret tt -> env_load E = Ret tt ->
  fst (save_sync_state sv st) = Ret tt /\
  fst (load_sync_state E (restart (snd (save_sync_state sv st)))) = Ret tt /\
  processed_files (snd (load_sync_state E (restart (snd (save_sync_state sv st)))))
  = processed_files st.
Proof.
  intros Ho Hd Hl. rewrite save_sync_state_written by done.
  rewrite load_sync_state_ok by done. cbn. done.
Qed.

Lemma save_then_load_round_trip_witness :
  fst (save_sync_state save_ok state_one) = Ret tt /\
  fst (load_sync_state env_two (restart (snd (save_sync_state save_ok state_one)))) = Ret tt /\
  processed_files
    (snd (load_sync_state env_two (restart (snd (save_sync_state save_ok state_one)))))
  = processed_files state_one.
Proof.
  exact (save_then_load_round_trip save_ok env_two state_one eq_refl eq_refl eq_refl).
Defined.

(** X2.  When the checkpoint file is missing, is not JSON, or
    cannot be read, [load_sync_state] leaves the synchroniser as it was;
    it returns normally unless the read was interrupted from the
    keyboard. *)
Theorem load_sync_state_failure_keeps_state E st :
  match state_file st with
  | Some (StateJson _ _) => exists e, env_load E = Raise e
  | _ => True
  end ->
  snd (load_sync_state E st) = st /\
  (fst (load_sync_state E st) = Ret tt \/
   (fst (load_sync_state E st) = Raise KeyboardInterrupt /\
    env_load E = Raise KeyboardInterrupt)).
Proof.
  intros Hfail. unfold load_sync_state. munfold.
  destruct (state_file st) as [[keys stamp|]|]; [| |auto].
  - destruct Hfail as [e ->]. destruct e; cbn; auto.
  - destruct (env_load E) as [[]|[]]; cbn; auto.
Qed.

Lemma load_sync_state_failure_keeps_state_witness :
  snd (load_sync_state env_two (set_state_file (Some Garbage) state_one))
  = set_state_file (Some Garbage) state_one /\
  (fst (load_sync_state env_two (set_state_file (Some Garbage) state_one)) = Ret tt \/
   (fst (load_sync_state env_two (set_state_file (Some Garbage) state_one))
    = Raise KeyboardInterrupt /\
    env_load env_two = Raise KeyboardInterrupt)).
Proof.
  exact (load_sync_state_failure_keeps_state env_two
           (set_state_file (Some Garbage) state_one) I).
Defined.

(** X3.  When the checkpoint file cannot be opened for writing,
    [save_sync_state] leaves the file on disk and the set in memory as
    they were, and returns normally unless the failure is a
    [KeyboardInterrupt]. *)
Theorem save_open_failure_keeps_file sv st e :
  sv_open_w sv = Raise e ->
  state_file (snd (save_sync_state sv st)) = state_file st /\
  processed_files (snd (save_sync_state sv st)) = processed_files st /\
  (fst (save_sync_state sv st) = Ret tt \/ e = KeyboardInterrupt).
Proof.
  intros Ho. unfold save_sync_state. munfold. rewrite Ho.
  destruct e; cbn; auto.
Qed.

Lemma save_open_failure_keeps_file_witness :
  sv_open_w save_denied = Raise (OtherException "PermissionError") /\
  state_file (snd (save_sync_state save_denied state_one)) = state_file state_one /\
  processed_files (snd (save_sync_state save_denied state_one))
  = processed_files state_one /\
  (fst (save_sync_state save_denied state_one) = Ret tt \/
   OtherException "PermissionError" = KeyboardInterrupt).
Proof.
  split; [reflexivity|].
  exact (save_open_failure_keeps_file save_denied state_one
           (OtherException "PermissionError") eq_refl).
Defined.

(** X4.  When [json.dump] fails after the file was opened, the
    file is left truncated: what is on disk is no checkpoint any more,
    and the next process that loads it starts from the empty set. *)
Theorem save_dump_failure_loses_checkpoint sv st e E :
  sv_open_w sv = Ret tt -> sv_dump sv = Raise e ->
  state_file (snd (save_sync_state sv st)) = Some Garbage /\
  processed_files (snd (load_sync_state E (restart (snd (save_sync_state sv st))))) = ∅.
Proof.
  intros Ho Hd.
  assert (Hst : snd (save_sync_state sv st)
                = set_state_file (Some Garbage) (set_trace (trace st ++ [EvSaveState]) st)).
  { unfold save_sync_state. munfold. rewrite Ho, Hd. by destruct e. }
  rewrite Hst. split; [done|].
  unfold load_sync_state, restart, ready. munfold. cbn.
  by destruct (env_load E) as [[]|[]].
Qed.

Lemma save_dump_failure_loses_checkpoint_witness :
  sv_open_w save_disk_full = Ret tt /\
  sv_dump save_disk_full = Raise (OtherException "OSError") /\
  state_file (snd (save_sync_state save_disk_full state_one)) = Some Garbage /\
  processed_files
    (snd (load_sync_state env_two (restart (snd (save_sync_state save_disk_full state_one)))))
  = ∅.
Proof.
  split; [reflexivity|]. split; [reflexivity|].
  exact (save_dump_failure_loses_checkpoint save_disk_full state_one
           (OtherException "OSError") env_two eq_refl eq_refl).
Defined.

(** ** Whole runs *)

Lemma count_saves_app tr1 tr2 : count_saves (tr1 ++ tr2) = count_saves tr1 + count_saves tr2.
Proof. unfold count_saves. rewrite List.filter_app, length_app. lia. Qed.

Lemma count_saves_none tr : EvSaveState ∉ tr -> count_saves tr = 0.
Proof.
  unfold count_saves. induction tr as [|ev tr IH]; [done|].
  intros [Hne Hnin]%not_elem_of_cons. cbn [List.filter].
  destruct ev; cbn [is_save]; try (by apply IH). done.
Qed.

Lemma count_saves_all tr :
  (forall ev, ev ∈ tr -> ev = EvSaveState) -> count_saves tr = Z.of_nat (length tr).
Proof.
  unfold count_saves. induction tr as [|ev tr IH]; [done|].
  intros Hall. rewrite (Hall ev) by left. cbn [List.filter is_save length].
  cbn [length]. rewrite !Nat2Z.inj_succ. rewrite IH; [done|].
  intros ev' Hin. apply Hall. by right.
Qed.

Lemma periodic_save_count E i st r st' :
  periodic_save E i st = (r, st') ->
  count_saves (trace st') = count_saves (trace st) + (if Z.eqb (i mod 10) 0 then 1 else 0).
Proof.
  unfold periodic_save. destruct (Z.eqb (i mod 10) 0).
  - intros (_ & _ & _ & _ & _ & -> & _)%save_sync_state_inv.
    by rewrite count_saves_app.
  - intros [= <- <-]. lia.
Qed.

Lemma process_photo_count io photo temp_dir stats st r st' :
  process_photo io photo temp_dir stats st = (r, st') ->
  count_saves (trace st') = count_saves (trace st).
Proof.
  intros ([_ _ _ _ _ (tr & -> & Hno)] & _)%process_photo_inv.
  rewrite count_saves_app, (count_saves_none tr) by done. lia.
Qed.

(** The multiples of ten among [i, i + 1, ..., i + k - 1]. *)
Lemma tens_step i : i / 10 - (i - 1) / 10 = if Z.eqb (i mod 10) 0 then 1 else 0.
Proof.
  destruct (Z.eqb_spec (i mod 10) 0) as [H0|H0].
  - pose proof (Z.div_mod i 10). pose proof (Z.div_mod (i - 1) 10).
    pose proof (Z.mod_pos_bound (i - 1) 10). lia.
  - pose proof (Z.div_mod i 10). pose proof (Z.div_mod (i - 1) 10).
    pose proof (Z.mod_pos_bound (i - 1) 10). pose proof (Z.mod_pos_bound i 10). lia.
Qed.

Lemma photo_loop_count E temp_dir max_photos photos :
  forall i stats st s' st',
    photo_loop E temp_dir max_photos i photos stats st = (Ret s', st') ->
    count_saves (trace st') =
    count_saves (trace st)
    + ((i + iterations max_photos i (length photos) - 1) / 10 - (i - 1) / 10).
Proof.
  induction photos as [|photo rest IH]; intros i stats st s' st' Hrun.
  - cbn in Hrun. unfold ret in Hrun. simplify_eq. rewrite iterations_nil.
    replace (i + 0 - 1) with (i - 1) by lia. lia.
  - rewrite photo_loop_unfold in Hrun. unfold bind at 1 in Hrun.
    destruct (process_photo (env_item E i) photo temp_dir stats st) as [r1 st1] eqn:H1.
    pose proof (process_photo_count _ _ _ _ _ _ _ H1) as Hc1.
    destruct r1 as [s1|e]; [|done].
    unfold bind at 1 in Hrun.
    destruct (periodic_save E i st1) as [r2 st2] eqn:H2.
    pose proof (periodic_save_count _ _ _ _ _ H2) as Hc2.
    destruct r2 as [[]|e]; [|done].
    destruct (reached_max max_photos i) eqn:Hmax.
    + unfold ret in Hrun. simplify_eq. cbn [length].
      rewrite (iterations_stop _ _ _ Hmax).
      replace (i + 1 - 1) with i by lia. rewrite Hc2, Hc1, <- tens_step. lia.
    + apply IH in Hrun. cbn [length]. rewrite (iterations_go _ _ _ Hmax).
      rewrite Hrun, Hc2, Hc1, <- tens_step.
      replace (i + (1 + iterations max_photos (i + 1) (length rest)) - 1)
        with (i + 1 + iterations max_photos (i + 1) (length rest) - 1) by lia.
      replace (i + 1 - 1) with i by lia. lia.
Qed.

(** X5.  A run of [sync_photos] over a non-empty inventory that
    returns its statistics has called [save_sync_state] once for every
    tenth iteration and once more at the end. *)
Theorem run_saves_every_tenth_and_last E max_photos st stats st' p ps :
  env_photos E = Ret (p :: ps) ->
  sync_photos E max_photos st = (Ret stats, st') ->
  count_saves (trace st') =
  count_saves (trace st) + iterated max_photos (length (p :: ps)) / 10 + 1.
Proof.
  intros Hp (st_l & photos & _ & _ & Hl & Hp' & Hcases)%sync_photos_Ret.
  rewrite Hp in Hp'. simplify_eq.
  apply load_sync_state_inv in Hl as (_ & _ & _ & _ & _ & Htl & _).
  destruct Hcases as [(? & _)|(_ & st_i & Hloop & Hsave)]; [done|].
  apply photo_loop_count in Hloop.
  apply save_sync_state_inv in Hsave as (_ & _ & _ & _ & _ & -> & _).
  rewrite count_saves_app, rmtree_trace, Hloop, Htl, iterations_iterated.
  change ((1 - 1) / 10) with 0.
  replace (1 + iterated max_photos (length (p :: ps)) - 1)
    with (iterated max_photos (length (p :: ps))) by lia.
  change (count_saves [EvSaveState]) with 1. lia.
Qed.

Lemma run_saves_every_tenth_and_last_witness :
  env_photos env_eleven = Ret (photo_a :: replicate 10 photo_a) /\
  sync_photos env_eleven None fresh
    = (Ret (mk_Stats 11 11 11 0 0), snd (sync_photos env_eleven None fresh)) /\
  count_saves (trace (snd (sync_photos env_eleven None fresh)))
  = count_saves (trace fresh) + iterated None (length (photo_a :: replicate 10 photo_a)) / 10 + 1.
Proof.
  split; [reflexivity|]. split; [vm_compute; reflexivity|].
  exact (run_saves_every_tenth_and_last env_eleven None fresh (mk_Stats 11 11 11 0 0) _
           photo_a (replicate 10 photo_a) eq_refl ltac:(vm_compute; reflexivity)).
Defined.

(** X6.  When the final save of a run over a non-empty inventory
    succeeds, the checkpoint on disk holds the set that is in memory at
    the end of the run, and that set contains every key that was loaded
    at the start. *)
Theorem run_leaves_memory_on_disk E max_photos st stats st' p ps :
  env_photos E = Ret (p :: ps) ->
  sv_open_w (env_final_save E) = Ret tt -> sv_dump (env_final_save E) = Ret tt ->
  sync_photos E max_photos st = (Ret stats, st') ->
  state_file st' = Some (StateJson (processed_files st') (sv_now (env_final_save E))) /\
  forall st_l, load_sync_state E st = (Ret tt, st_l) ->
               processed_files st_l ⊆ processed_files st'.
Proof.
  intros Hp Ho Hd (st_l & photos & _ & _ & Hl & Hp' & Hcases)%sync_photos_Ret.
  rewrite Hp in Hp'. simplify_eq.
  destruct Hcases as [(? & _)|(_ & st_i & Hloop & Hsave)]; [done|].
  rewrite save_sync_state_written in Hsave by done. simplify_eq.
  split; [done|]. intros st_l' Hl'. rewrite Hl in Hl'. simplify_eq.
  apply photo_loop_inv in Hloop as ([_ _ _ Hsub _] & _). exact Hsub.
Qed.

Lemma run_leaves_memory_on_disk_witness :
  env_photos env_two = Ret [photo_a; photo_b] /\
  sync_photos env_two None fresh = (Ret (mk_Stats 2 2 2 0 0), state_two) /\
  state_file state_two
  = Some (StateJson (processed_files state_two) (sv_now (env_final_save env_two))) /\
  forall st_l, load_sync_state env_two fresh = (Ret tt, st_l) ->
               processed_files st_l ⊆ processed_files state_two.
Proof.
  split; [reflexivity|]. split; [vm_compute; reflexivity|].
  exact (run_leaves_memory_on_disk env_two None fresh (mk_Stats 2 2 2 0 0) state_two
           photo_a [photo_b] eq_refl eq_refl eq_refl ltac:(vm_compute; reflexivity)).
Defined.

(** ** The cap *)

Lemma photo_loop_cap_without_effect E temp_dir m photos :
  forall i stats st,
    m = 0 \/ m < i \/ i + Z.of_nat (length photos) - 1 <= m ->
    photo_loop E temp_dir (Some m) i photos stats st
    = photo_loop E temp_dir None i photos stats st.
Proof.
  induction photos as [|photo rest IH]; intros i stats st Hm; [done|].
  rewrite !photo_loop_unfold. unfold bind at 1 3.
  destruct (process_photo _ _ _ _ _) as [[s1|e] st1]; [|done].
  unfold bind. destruct (periodic_save E i st1) as [[[]|e] st2]; [|done].
  cbn [reached_max]. cbn [length] in Hm.
  destruct (Z.eqb_spec m 0) as [->|Hm0]; cbn [negb andb].
  { apply IH. by left. }
  destruct (Z.eqb_spec i m) as [->|Hne]; cbn [andb].
  - destruct rest as [|q rest]; [done|]. cbn [length] in Hm. lia.
  - apply IH. lia.
Qed.

(** X7.  A cap [max_photos] that is zero, negative, or not below
    the length of the inventory changes nothing: the run is the run
    without a cap. *)
Theorem cap_outside_inventory_is_no_cap E m st photos :
  env_photos E = Ret photos ->
  m <= 0 \/ Z.of_nat (length photos) <= m ->
  sync_photos E (Some m) st = sync_photos E None st.
Proof.
  intros Hp Hm. unfold sync_photos.
  destruct (negb (icloud st) || negb (s3_client st))%bool; [done|].
  unfold bind, lift, with_TemporaryDirectory.
  destruct (load_sync_state E st) as [[[]|e] st_l]; [|done].
  rewrite Hp. destruct photos as [|p ps]; [done|].
  rewrite photo_loop_cap_without_effect; [done|].
  destruct (Z.eqb_spec m 0); [by left|right]. lia.
Qed.

Lemma cap_outside_inventory_is_no_cap_witness :
  env_photos env_two = Ret [photo_a; photo_b] /\
  Z.of_nat (length [photo_a; photo_b]) <= 5 /\
  sync_photos env_two (Some 5) fresh = sync_photos env_two None fresh.
Proof.
  assert (Hm : Z.of_nat (length [photo_a; photo_b]) <= 5) by (cbn; lia).
  split; [reflexivity|]. split; [exact Hm|].
  exact (cap_outside_inventory_is_no_cap env_two 5 fresh [photo_a; photo_b]
           eq_refl (or_intror Hm)).
Defined.

Lemma photo_loop_cap_is_prefix E temp_dir m photos :
  forall i stats st,
    1 <= i <= m ->
    photo_loop E temp_dir (Some m) i photos stats st
    = photo_loop E temp_dir None i (take (Z.to_nat (m - i + 1)) photos) stats st.
Proof.
  induction photos as [|photo rest IH]; intros i stats st Hi.
  { by rewrite take_nil. }
  replace (Z.to_nat (m - i + 1)) with (S (Z.to_nat (m - i))) by lia.
  cbn [take]. rewrite !photo_loop_unfold. unfold bind at 1 3.
  destruct (process_photo _ _ _ _ _) as [[s1|e] st1]; [|done].
  unfold bind. destruct (periodic_save E i st1) as [[[]|e] st2]; [|done].
  cbn [reached_max].
  destruct (Z.eqb_spec m 0) as [->|Hm0]; [lia|]. cbn [negb andb].
  destruct (Z.eqb_spec i m) as [->|Hne]; cbn [andb].
  - replace (Z.to_nat (m - m)) with 0%nat by lia. by rewrite take_0.
  - rewrite IH by lia. by replace (m - (i + 1) + 1) with (m - i) by lia.
Qed.

Lemma process_photo_total io photo temp_dir t stats st :
  process_photo io photo temp_dir (with_total t stats) st
  = (res_map (with_total t) (fst (process_photo io photo temp_dir stats st)),
     snd (process_photo io photo temp_dir stats st)).
Proof.
  unfold process_photo. munfold.
  destruct (download_and_upload_photo io photo temp_dir st) as [[[]|e] st1];
    [case_bool_decide| |destruct e]; reflexivity.
Qed.

Lemma photo_loop_total E temp_dir max_photos t photos :
  forall i stats st,
    photo_loop E temp_dir max_photos i photos (with_total t stats) st
    = (res_map (with_total t) (fst (photo_loop E temp_dir max_photos i photos stats st)),
       snd (photo_loop E temp_dir max_photos i photos stats st)).
Proof.
  induction photos as [|photo rest IH]; intros i stats st; [done|].
  rewrite !photo_loop_unfold. unfold bind at 1 3 5.
  rewrite process_photo_total.
  destruct (process_photo _ _ _ stats st) as [[s1|e] st1]; [|done].
  cbn [res_map fst snd]. unfold bind.
  destruct (periodic_save E i st1) as [[[]|e] st2]; [|done].
  destruct (reached_max max_photos i); [done|]. apply IH.
Qed.

(** X8.  With a cap [m >= 1] a run is the uncapped run over the
    first [m] photos of the inventory, up to the counter [total], which
    counts the whole inventory. *)
Theorem capped_run_is_run_over_prefix E m st photos :
  env_photos E = Ret photos -> 1 <= m ->
  sync_photos E (Some m) st
  = (res_map (with_total (Z.of_nat (length photos)))
       (fst (sync_photos (with_photos E (take (Z.to_nat m) photos)) None st)),
     snd (sync_photos (with_photos E (take (Z.to_nat m) photos)) None st)).
Proof.
  intros Hp Hm. unfold sync_photos.
  destruct (negb (icloud st) || negb (s3_client st))%bool; [done|].
  unfold bind, lift, with_TemporaryDirectory.
  change (load_sync_state (with_photos E _)) with (load_sync_state E).
  destruct (load_sync_state E st) as [[[]|e] st_l]; [|done].
  rewrite Hp. cbn [env_photos env_temp_dir env_final_save with_photos].
  destruct photos as [|p ps]; [by rewrite take_nil|].
  replace (Z.to_nat m) with (S (Z.to_nat (m - 1))) by lia. cbn [take].
  rewrite photo_loop_cap_is_prefix by lia.
  replace (Z.to_nat (m - 1 + 1)) with (S (Z.to_nat (m - 1))) by lia. cbn [take].
  change (mk_Stats (Z.of_nat (length (p :: ps))) 0 0 0 0)
    with (with_total (Z.of_nat (length (p :: ps)))
            (mk_Stats (Z.of_nat (length (p :: take (Z.to_nat (m - 1)) ps))) 0 0 0 0)).
  rewrite photo_loop_total.
  assert (Hsame : forall l d i ph s x, photo_loop (with_photos E l) d None i ph s x
                                       = photo_loop E d None i ph s x).
  { intros l d i ph. revert i. induction ph as [|q ph IHph]; intros i s x; [done|].
    rewrite !photo_loop_unfold. unfold bind.
    change (env_item (with_photos E l) i) with (env_item E i).
    destruct (process_photo _ _ _ _ _) as [[?|?] ?]; [|done].
    change (periodic_save (with_photos E l) i) with (periodic_save E i).
    destruct (periodic_save _ _ _) as [[[]|?] ?]; [|done].
    cbn [reached_max]. apply IHph. }
  rewrite Hsame.
  destruct (photo_loop E _ _ _ _ _ _) as [[s|e] st_i]; [|done].
  cbn [res_map fst snd].
  by destruct (save_sync_state _ _) as [[[]|e] st2].
Qed.

Lemma capped_run_is_run_over_prefix_witness :
  env_photos env_two = Ret [photo_a; photo_b] /\ 1 <= 1 /\
  sync_photos env_two (Some 1) fresh
  = (res_map (with_total (Z.of_nat (length [photo_a; photo_b])))
       (fst (sync_photos (with_photos env_two (take (Z.to_nat 1) [photo_a; photo_b]))
               None fresh)),
     snd (sync_photos (with_photos env_two (take (Z.to_nat 1) [photo_a; photo_b]))
            None fresh)).
Proof.
  assert (Hm : 1 <= 1) by lia.
  split; [reflexivity|]. split; [exact Hm|].
  exact (capped_run_is_run_over_prefix env_two 1 fresh [photo_a; photo_b] eq_refl Hm).
Defined.

(** ** Counters *)

Lemma photo_loop_bounds E temp_dir max_photos photos :
  forall i stats st s' st',
    photo_loop E temp_dir max_photos i photos stats st = (Ret s', st') ->
    processed stats <= processed s' /\ errors stats <= errors s' /\
    uploaded stats <= uploaded s' /\
    uploaded s' - uploaded stats <= processed s' - processed stats.
Proof.
  induction photos as [|photo rest IH]; intros i stats st s' st' Hrun.
  - cbn in Hrun. unfold ret in Hrun. simplify_eq. lia.
  - rewrite photo_loop_unfold in Hrun. unfold bind at 1 in Hrun.
    destruct (process_photo (env_item E i) photo temp_dir stats st) as [r1 st1] eqn:H1.
    apply process_photo_inv in H1 as (_ & [->|(s1 & -> & _ & _ & Hc)] & _); [done|].
    unfold bind at 1 in Hrun.
    destruct (periodic_save E i st1) as [[[]|e] st2]; [|done].
    destruct (reached_max max_photos i).
    + unfold ret in Hrun. simplify_eq. lia.
    + apply IH in Hrun. lia.
Qed.

(** X9.  In the statistics a run returns, [total] is the length of
    the inventory, [uploaded] lies between zero and [processed],
    [errors] is not negative, and [processed] and [errors] together do
    not exceed [total]. *)
Theorem stats_bounds E max_photos st stats st' photos :
  env_photos E = Ret photos ->
  sync_photos E max_photos st = (Ret stats, st') ->
  total stats = Z.of_nat (length photos) /\
  0 <= uploaded stats <= processed stats /\ 0 <= errors stats /\
  processed stats + errors stats <= total stats.
Proof.
  intros Hp Hrun.
  destruct (sync_photos_stats _ _ _ _ _ _ Hp Hrun) as (Ht & _ & Hsum).
  split; [done|].
  assert (Hit : iterated max_photos (length photos) <= Z.of_nat (length photos)).
  { unfold iterated. destruct max_photos as [m|]; [|lia].
    destruct (Z.leb_spec 1 m), (Z.leb_spec m (Z.of_nat (length photos)));
      cbn [andb]; lia. }
  destruct (sync_photos_Ret _ _ _ _ _ Hrun) as (st_l & photos' & _ & _ & _ & _ & Hcases).
  destruct Hcases as [(_ & -> & _)|(_ & st_i & Hloop & _)]; [cbn in *; lia|].
  apply photo_loop_bounds in Hloop. cbn in Hloop. lia.
Qed.

Lemma stats_bounds_witness :
  env_photos env_mixed = Ret [photo_a; photo_b] /\
  sync_photos env_mixed None fresh
    = (Ret (mk_Stats 2 1 1 0 1), snd (sync_photos env_mixed None fresh)) /\
  total (mk_Stats 2 1 1 0 1) = Z.of_nat (length [photo_a; photo_b]) /\
  0 <= uploaded (mk_Stats 2 1 1 0 1) <= processed (mk_Stats 2 1 1 0 1) /\
  0 <= errors (mk_Stats 2 1 1 0 1) /\
  processed (mk_Stats 2 1 1 0 1) + errors (mk_Stats 2 1 1 0 1)
  <= total (mk_Stats 2 1 1 0 1).
Proof.
  split; [reflexivity|]. split; [vm_compute; reflexivity|].
  exact (stats_bounds env_mixed None fresh (mk_Stats 2 1 1 0 1) _ [photo_a; photo_b]
           eq_refl ltac:(vm_compute; reflexivity)).
Defined.

(** ** The calls of one transfer *)

(** X10.  The outside calls of one
    [download_and_upload_photo] are the first [n] of: download,
    [head_object], [upload_file], for some [n] of at most three.  A photo
    found in the checkpoint set makes none of them, and all three are
    made, that is [upload_file] is reached, only after the download
    returned the content and the probe answered that the object is not
    at the destination. *)
Theorem transfer_calls_in_order io photo temp_dir st :
  exists extra (n : nat),
    (n <= 3)%nat /\
    trace (snd (download_and_upload_photo io photo temp_dir st))
    = (trace st ++ take n (transfer_calls photo temp_dir extra))%list /\
    (photo_key photo ∈ processed_files st -> n = 0%nat) /\
    (n = 3%nat ->
     exists resp data,
       io_download io = Ret (Some resp) /\ raw_read resp = Ret data /\
       probe_answer io (MD5.hexdigest data) = Ret false).
Proof.
  set (extra0 := upload_extra_args st (path_join temp_dir (photo_filename photo)) None).
  destruct (download_and_upload_photo io photo temp_dir st) as [r st'] eqn:Hrun.
  unfold download_and_upload_photo in Hrun. munfold. unfold transfer_calls.
  fold (photo_key photo) in Hrun.
  case_bool_decide.
  { simplify_eq. exists extra0, 0%nat. cbn. rewrite app_nil_r. split_and!; [lia|done..]. }
  repeat mstep Hrun; simplify_eq; cbn [snd trace set_trace set_files set_processed_files];
    rewrite <- ?app_assoc; cbn [app].
  all: first
    [ by (exists extra0, 1%nat; cbn; split_and!; [lia|done..])
    | by (exists extra0, 2%nat; cbn; split_and!; [lia|done..])
    | (eexists _, 3%nat; cbn; split; [lia|]; split; [reflexivity|]; split; [done|]; eauto) ].
Qed.

(** X11.  A photo whose [created] attribute exists and is
    [None] is filed under [photos/unknown_date/], and a call for it never
    reaches [upload_file]: [photo.created.isoformat()] raises first.  Its
    key enters the checkpoint set only when the probe finds the object
    at the destination. *)
Theorem created_none_is_never_uploaded io photo temp_dir st :
  created photo = Attr None ->
  generate_s3_key photo (photo_filename photo)
  = "photos/unknown_date/" ++ photo_filename photo /\
  (forall local_path key extra,
     EvUploadFile local_path key extra ∈
       trace (snd (download_and_upload_photo io photo temp_dir st)) ->
     EvUploadFile local_path key extra ∈ trace st) /\
  (forall k, k ∈ processed_files (snd (download_and_upload_photo io photo temp_dir st)) ->
     k ∉ processed_files st ->
     exists resp data, io_download io = Ret (Some resp) /\ raw_read resp = Ret data /\
                       probe_answer io (MD5.hexdigest data) = Ret true).
Proof.
  intros Hcr. split; [unfold generate_s3_key; by rewrite Hcr|].
  destruct (download_and_upload_photo io photo temp_dir st) as [r st'] eqn:Hrun.
  unfold download_and_upload_photo in Hrun. munfold. rewrite Hcr in Hrun.
  case_bool_decide.
  { simplify_eq. cbn. split; [auto|]. intros; done. }
  repeat mstep Hrun; simplify_eq; cbn [snd trace set_trace set_files set_processed_files
                                       processed_files].
  all: split;
    [ intros local_path key extra; rewrite ?elem_of_app, ?list_elem_of_singleton;
      intros Hin; decompose [or] Hin; (done || discriminate)
    | intros k Hin Hout ].
  all: try (exfalso; exact (Hout Hin)).
  all: eauto.
Qed.

Lemma created_none_is_never_uploaded_witness :
  created photo_undated = Attr None /\
  generate_s3_key photo_undated (photo_filename photo_undated)
  = "photos/unknown_date/" ++ photo_filename photo_undated /\
  (forall local_path key extra,
     EvUploadFile local_path key extra ∈
       trace (snd (download_and_upload_photo io_absent photo_undated "/tmp/tmpk3v9x2" fresh)) ->
     EvUploadFile local_path key extra ∈ trace fresh) /\
  (forall k,
     k ∈ processed_files
           (snd (download_and_upload_photo io_absent photo_undated "/tmp/tmpk3v9x2" fresh)) ->
     k ∉ processed_files fresh ->
     exists resp data,
       io_download io_absent = Ret (Some resp) /\ raw_read resp = Ret data /\
       probe_answer io_absent (MD5.hexdigest data) = Ret true).
Proof.
  split; [reflexivity|].
  exact (created_none_is_never_uploaded io_absent photo_undated "/tmp/tmpk3v9x2" fresh
           eq_refl).
Defined.

(** ** Keys and scratch paths *)

Lemma append_cons x (a b : string) : String x a ++ b = String x (a ++ b).
Proof. reflexivity. Qed.

Lemma append_nil_l (b : string) : "" ++ b = b.
Proof. reflexivity. Qed.

Lemma append_nil_r (a : string) : a ++ "" = a.
Proof. induction a as [|x a IH]; [done|]. by rewrite append_cons, IH. Qed.

Lemma append_assoc (a b c : string) : (a ++ b) ++ c = a ++ (b ++ c).
Proof. induction a as [|x a IH]; [done|]. by rewrite !append_cons, IH. Qed.

Lemma append_sep_inj c a b x y :
  lacks c a -> lacks c b -> a ++ String c x = b ++ String c y -> a = b /\ x = y.
Proof.
  revert b. induction a as [|d a IH]; intros [|e b] Ha Hb Heq;
    rewrite ?append_cons, ?append_nil_l in Heq; cbn [lacks] in *.
  - by simplify_eq.
  - destruct Hb as [He _]. by simplify_eq.
  - destruct Ha as [Hd _]. by simplify_eq.
  - destruct Ha as [_ Ha], Hb as [_ Hb]. simplify_eq.
    destruct (IH b Ha Hb) as [-> ->]; done.
Qed.

(** X12.  For photos whose ids hold no underscore, the checkpoint
    key [f"{photo.id}_{filename}"] determines the id and the file
    name. *)
Theorem photo_key_inj p1 p2 :
  lacks "_" (id p1) -> lacks "_" (id p2) ->
  photo_key p1 = photo_key p2 ->
  id p1 = id p2 /\ photo_filename p1 = photo_filename p2.
Proof. intros H1 H2. unfold photo_key. by apply (append_sep_inj "_"). Qed.

Lemma photo_key_inj_witness :
  lacks "_" (id photo_a) /\
  lacks "_" (id (mk_Photo "A1" (Attr "IMG_1.JPG") Absent Absent)) /\
  photo_key photo_a = photo_key (mk_Photo "A1" (Attr "IMG_1.JPG") Absent Absent) /\
  id photo_a = id (mk_Photo "A1" (Attr "IMG_1.JPG") Absent Absent) /\
  photo_filename photo_a
  = photo_filename (mk_Photo "A1" (Attr "IMG_1.JPG") Absent Absent).
Proof.
  assert (Hl : lacks "_" "A1") by (by apply (bool_decide_unpack _)).
  split; [exact Hl|]. split; [exact Hl|]. split; [reflexivity|].
  exact (photo_key_inj photo_a (mk_Photo "A1" (Attr "IMG_1.JPG") Absent Absent)
           Hl Hl eq_refl).
Defined.

(** Without the hypothesis two different photos can share a key. *)
Lemma photo_key_collision a b c cr ad :
  photo_key (mk_Photo (a ++ "_" ++ b) (Attr c) cr ad)
  = photo_key (mk_Photo a (Attr (b ++ "_" ++ c)) cr ad).
Proof. unfold photo_key, photo_filename. cbn [id filename]. by rewrite !append_assoc. Qed.

Lemma strip_prefix_append p s : strip_prefix p (p ++ s) = Some s.
Proof.
  induction p as [|c p IH]; [done|]. rewrite append_cons. cbn [strip_prefix].
  by rewrite Ascii.eqb_refl.
Qed.



(** A file beside the scratch directory, reached through [..], is not
    in it and is still there after the directory is removed. *)
Lemma rmtree_keeps_sibling dir st x :
  files (rmtree dir st) !! (dir ++ "/" ++ "../" ++ x) = files st !! (dir ++ "/" ++ "../" ++ x).
Proof.
  unfold rmtree. cbn [files set_files].
  destruct (files st !! _) as [data|] eqn:Hf.
  - apply map_lookup_filter_Some. split; [done|]. cbn [fst].
    unfold in_dir. rewrite <- append_assoc, strip_prefix_append.
    change ("../" ++ x) with (String "." (String "." (String "/" x))).
    cbn [split_slash Ascii.eqb]. cbn. tauto.
  - apply map_lookup_filter_None. by left.
Qed.



(** ** Exit status *)

(** X14.  After both setups have succeeded, with the prompts
    answered and without a keyboard interrupt from the checkpoint file
    or the items, [main] exits with status 0 when the listing of the
    photos returns, whatever happens to the single photos and to the
    checkpoint file, and with status 1 when the listing raises. *)
Theorem main_exits_0_whatever_items_do me E fs disk max_photos :
  m_setup_icloud me = true -> m_setup_s3 me = true ->
  m_max_photos me = Ret max_photos ->
  calm (env_load E) ->
  (forall j, calm_item (env_item E j)) -> calm_save (env_final_save E) ->
  fst (main me E fs disk) = match env_photos E with Ret _ => 0 | Raise _ => 1 end.
Proof.
  intros Hic Hs3 Hmax Hload Hitems Hfinal. unfold main.
  rewrite Hic, Hs3. cbn [negb]. unfold bind, lift. rewrite Hmax.
  destruct (env_photos E) as [photos|e] eqn:Hp.
  - destruct (sync_photos_completes E max_photos
                (set_s3_client (set_icloud (new_sync (m_storage_class me) fs disk)))
                photos eq_refl eq_refl Hload Hp Hitems Hfinal) as [stats Hst].
    destruct (sync_photos _ _ _) as [r st']. cbn in Hst. by subst r.
  - unfold sync_photos. cbn [icloud s3_client set_s3_client set_icloud new_sync negb orb].
    unfold bind, lift.
    destruct (load_sync_state E _) as [[[]|e'] st_l]; [|by destruct e'].
    rewrite Hp. by destruct e.
Qed.

Lemma main_exits_0_whatever_items_do_witness :
  (forall j, calm_item (env_item env_mixed j)) /\
  fst (main main_ok env_mixed ∅ None) = 0 /\
  fst (main main_ok env_no_listing ∅ None) = 1.
Proof.
  assert (Hmixed : forall j, calm_item (env_item env_mixed j)).
  { intros j. unfold env_mixed, env_of, env_item.
    destruct (Z.eqb j 1); vm_compute; tauto. }
  assert (Hnone : forall j, calm_item (env_item env_no_listing j)).
  { intros j. vm_compute. tauto. }
  split; [exact Hmixed|]. split.
  - exact (main_exits_0_whatever_items_do main_ok env_mixed ∅ None None
             eq_refl eq_refl eq_refl I Hmixed (conj I I)).
  - exact (main_exits_0_whatever_items_do main_ok env_no_listing ∅ None None
             eq_refl eq_refl eq_refl I Hnone (conj I I)).
Defined.

(** ** Hashes and tags *)

Lemma le_bytes_length n z : length (MD5.le_bytes n z) = n.
Proof. revert z. induction n as [|n IH]; intros z; [done|]. cbn. by rewrite IH. Qed.

Lemma digest_length msg : length (MD5.digest msg) = 16%nat.
Proof.
  unfold MD5.digest. destruct (MD5.blocks _ _ _) as [[[a b] c] d].
  by rewrite !length_app, !le_bytes_length.
Qed.

Lemma hex_digit_is_hex z : is_hex (MD5.hex_digit z) = true.
Proof.
  unfold MD5.hex_digit. generalize (Z.to_nat z). intros n.
  do 16 (destruct n as [|n]; [reflexivity|]). reflexivity.
Qed.

Lemma hex_bytes_format (l : list byte) :
  String.length (foldr (fun b acc => MD5.hex_byte b ++ acc) "" l) = (2 * length l)%nat /\
  all_hex (foldr (fun b acc => MD5.hex_byte b ++ acc) "" l) = true.
Proof.
  induction l as [|b l [IHlen IHhex]]; [done|].
  cbn [foldr]. unfold MD5.hex_byte at 1 3. rewrite !append_cons, append_nil_l.
  cbn [String.length all_hex]. rewrite IHlen, IHhex, !hex_digit_is_hex.
  split; [cbn [length]; lia|done].
Qed.

Lemma hexdigest_format h :
  String.length (MD5.hexdigest h) = 32%nat /\ all_hex (MD5.hexdigest h) = true.
Proof.
  unfold MD5.hexdigest. destruct (hex_bytes_format (MD5.digest h)) as [Hl Hh].
  by rewrite Hl, digest_length.
Qed.

(** X15.  [get_file_hash] returns the MD5 of the whole file
    although it reads it in blocks of 4096 bytes, leaves the
    synchroniser unchanged, and its result is 32 lowercase hexadecimal
    digits. *)
Theorem get_file_hash_of_whole_file path st data :
  files st !! path = Some data ->
  get_file_hash path st = (Ret (MD5.hexdigest data), st) /\
  String.length (MD5.hexdigest data) = 32%nat /\ all_hex (MD5.hexdigest data) = true.
Proof.
  intros Hf. split; [|apply hexdigest_format].
  rewrite get_file_hash_run. by rewrite Hf.
Qed.

Lemma get_file_hash_of_whole_file_witness :
  files state_scratch !! scratch_a = Some hello /\
  get_file_hash scratch_a state_scratch
  = (Ret (MD5.hexdigest hello), state_scratch) /\
  String.length (MD5.hexdigest hello) = 32%nat /\ all_hex (MD5.hexdigest hello) = true.
Proof.
  assert (Hf : files state_scratch !! scratch_a = Some hello) by (vm_compute; reflexivity).
  split; [exact Hf|].
  exact (get_file_hash_of_whole_file scratch_a state_scratch hello Hf).
Defined.

Lemma string_rev_onto_app s acc : string_rev_onto s acc = string_rev s ++ acc.
Proof.
  unfold string_rev. revert acc. induction s as [|a s IH]; intros acc; [done|].
  cbn [string_rev_onto]. rewrite (IH (String a acc)), (IH (String a "")).
  by rewrite append_assoc.
Qed.

Lemma string_rev_cons a s : string_rev (String a s) = string_rev s ++ String a "".
Proof. unfold string_rev at 1. cbn [string_rev_onto]. apply string_rev_onto_app. Qed.

Lemma string_rev_app s t : string_rev (s ++ t) = string_rev t ++ string_rev s.
Proof.
  induction s as [|a s IH]; [by rewrite append_nil_l, append_nil_r|].
  by rewrite append_cons, !string_rev_cons, IH, append_assoc.
Qed.

Lemma string_rev_involutive s : string_rev (string_rev s) = s.
Proof.
  induction s as [|a s IH]; [done|].
  rewrite string_rev_cons, string_rev_app, IH. done.
Qed.

Lemma lacks_app c s t : lacks c (s ++ t) <-> lacks c s /\ lacks c t.
Proof.
  induction s as [|a s IH]; [rewrite append_nil_l; cbn; tauto|].
  rewrite append_cons. cbn [lacks]. tauto.
Qed.

Lemma lacks_rev c s : lacks c s -> lacks c (string_rev s).
Proof.
  induction s as [|a s IH]; [done|]. intros [Ha Hs].
  rewrite string_rev_cons. apply lacks_app. cbn. auto.
Qed.

Lemma lstrip_lacks c s : lacks c s -> lstrip c s = s.
Proof.
  destruct s as [|a s]; [done|]. intros [Ha _]. cbn [lstrip].
  by destruct (Ascii.eqb_spec a c).
Qed.

Lemma strip_lacks c s : lacks c s -> strip c s = s.
Proof.
  intros Hs. unfold strip. rewrite (lstrip_lacks c s) by done.
  rewrite lstrip_lacks by by apply lacks_rev. apply string_rev_involutive.
Qed.

Lemma strip_quoted s : lacks dquote s -> strip dquote (quoted s) = s.
Proof.
  intros Hs. unfold strip, quoted. cbn [lstrip]. rewrite Ascii.eqb_refl.
  destruct s as [|a s].
  { rewrite append_nil_l. cbn [lstrip]. by rewrite Ascii.eqb_refl. }
  rewrite append_cons. cbn [lstrip].
  destruct (Ascii.eqb_spec a dquote) as [->|_]; [by destruct Hs|].
  rewrite <- append_cons, string_rev_app. change (string_rev (String dquote "")) with (String dquote "").
  rewrite append_cons, append_nil_l. cbn [lstrip]. rewrite Ascii.eqb_refl.
  rewrite lstrip_lacks by by apply lacks_rev. apply string_rev_involutive.
Qed.

Lemma all_hex_lacks_dquote s : all_hex s = true -> lacks dquote s.
Proof.
  induction s as [|a s IH]; [done|]. cbn [all_hex lacks].
  intros [Ha Hs]%andb_prop. split; [|by apply IH].
  intros ->. discriminate Ha.
Qed.

(** X16.  [file_exists_in_s3] answers [True] when the ETag of
    the object is the local hash, between double quotes or bare. *)
Theorem quoted_digest_matches io s3_key local_hash st :
  all_hex local_hash = true ->
  io_head_object io = Ret (Some (quoted local_hash)) \/
  io_head_object io = Ret (Some local_hash) ->
  fst (file_exists_in_s3 io s3_key local_hash st) = Ret true.
Proof.
  intros Hhex%all_hex_lacks_dquote Htag.
  rewrite file_exists_in_s3_run. unfold probe_answer. cbn [fst].
  destruct Htag as [-> | ->].
  - change (default "" (Some (quoted local_hash))) with (quoted local_hash).
    by rewrite strip_quoted, String.eqb_refl.
  - change (default "" (Some local_hash)) with local_hash.
    by rewrite strip_lacks, String.eqb_refl.
Qed.

Lemma quoted_digest_matches_witness :
  all_hex "5d41402abc4b2a76b9719d911017c592" = true /\
  io_head_object io_present = Ret (Some (quoted "5d41402abc4b2a76b9719d911017c592")) /\
  fst (file_exists_in_s3 io_present "photos/2024/03/IMG_1.JPG"
         "5d41402abc4b2a76b9719d911017c592" fresh) = Ret true.
Proof.
  split; [reflexivity|]. split; [reflexivity|].
  exact (quoted_digest_matches io_present "photos/2024/03/IMG_1.JPG"
           "5d41402abc4b2a76b9719d911017c592" fresh eq_refl (or_introl eq_refl)).
Defined.

(** X17.  An ETag that, once stripped of its quotes, is not
    32 hexadecimal digits never matches the hash of a file:
    [file_exists_in_s3] answers [False] whatever the content is. *)
Theorem foreign_tag_never_matches io s3_key data tag st :
  io_head_object io = Ret tag ->
  all_hex (strip dquote (default "" tag)) = false \/
  String.length (strip dquote (default "" tag)) <> 32%nat ->
  fst (file_exists_in_s3 io s3_key (MD5.hexdigest data) st) = Ret false.
Proof.
  intros Hhd Hbad. rewrite file_exists_in_s3_run. unfold probe_answer. cbn [fst].
  rewrite Hhd. f_equal. apply String.eqb_neq. intros Heq.
  destruct (hexdigest_format data) as [Hlen Hhex]. rewrite <- Heq in Hlen, Hhex.
  destruct Hbad; congruence.
Qed.

Lemma foreign_tag_never_matches_witness :
  io_head_object io_multipart = Ret (Some (quoted "554a2f6105cc700b8cc987b5ddfb8102-2")) /\
  all_hex (strip dquote (quoted "554a2f6105cc700b8cc987b5ddfb8102-2")) = false /\
  fst (file_exists_in_s3 io_multipart "photos/2024/03/IMG_1.JPG" (MD5.hexdigest hello) fresh)
  = Ret false.
Proof.
  split; [reflexivity|]. split; [reflexivity|].
  exact (foreign_tag_never_matches io_multipart "photos/2024/03/IMG_1.JPG" hello
           (Some (quoted "554a2f6105cc700b8cc987b5ddfb8102-2")) fresh
           eq_refl (or_introl eq_refl)).
Defined.

(** ** Content types *)

Lemma ascii_lower_slash a : Ascii.eqb (ascii_lower a) "/" = Ascii.eqb a "/".
Proof. destruct a as [[] [] [] [] [] [] [] []]; reflexivity. Qed.

Lemma ascii_lower_dot a : Ascii.eqb (ascii_lower a) "." = Ascii.eqb a ".".
Proof. destruct a as [[] [] [] [] [] [] [] []]; reflexivity. Qed.

Lemma ascii_lower_idemp a : ascii_lower (ascii_lower a) = ascii_lower a.
Proof. destruct a as [[] [] [] [] [] [] [] []]; reflexivity. Qed.

Lemma lower_app s t : lower (s ++ t) = lower s ++ lower t.
Proof.
  induction s as [|a s IH]; [done|].
  rewrite append_cons. cbn [lower]. by rewrite append_cons, IH.
Qed.

Lemma lower_length s : String.length (lower s) = String.length s.
Proof. induction s as [|a s IH]; [done|]. cbn. by rewrite IH. Qed.

Lemma lower_idemp s : lower (lower s) = lower s.
Proof. induction s as [|a s IH]; [done|]. cbn. by rewrite ascii_lower_idemp, IH. Qed.

Lemma lower_rev_onto s acc :
  string_rev_onto (lower s) (lower acc) = lower (string_rev_onto s acc).
Proof.
  revert acc. induction s as [|a s IH]; intros acc; [done|].
  cbn [lower string_rev_onto]. apply (IH (String a acc)).
Qed.

Lemma split_slash_lower s : split_slash (lower s) = List.map lower (split_slash s).
Proof.
  induction s as [|a s IH]; [done|].
  cbn [lower split_slash]. rewrite ascii_lower_slash, IH.
  destruct (Ascii.eqb a "/"); [done|]. by destruct (split_slash s).
Qed.

Lemma lower_eq_nil c : String.eqb (lower c) "" = String.eqb c "".
Proof. by destruct c. Qed.

Lemma lower_eq_dot c : String.eqb (lower c) "." = String.eqb c ".".
Proof.
  destruct c as [|a [|b c]]; [done| |].
  - cbn [lower]. cbn [String.eqb]. by rewrite ascii_lower_dot.
  - cbn [lower]. cbn [String.eqb]. by rewrite ascii_lower_dot.
Qed.

Lemma is_name_lower c : is_name (lower c) = is_name c.
Proof. unfold is_name. by rewrite lower_eq_nil, lower_eq_dot. Qed.

Lemma filter_is_name_lower l :
  List.filter is_name (List.map lower l) = List.map lower (List.filter is_name l).
Proof.
  induction l as [|c l IH]; [done|].
  cbn [List.map List.filter]. rewrite is_name_lower, IH. by destruct (is_name c).
Qed.

Lemma last_map_lower l d :
  List.last (List.map lower l) (lower d) = lower (List.last l d).
Proof.
  induction l as [|c l IH]; [done|]. cbn [List.map].
  destruct l as [|c' l]; [done|]. exact IH.
Qed.

Lemma lower_rfind_dot s i :
  rfind_dot (lower s) i
  = match rfind_dot s i with
    | Some (j, suf) => Some (j, lower suf)
    | None => None
    end.
Proof.
  revert i. induction s as [|a s IH]; intros i; [done|].
  cbn [lower rfind_dot]. rewrite IH, ascii_lower_dot.
  destruct (rfind_dot s (S i)) as [[j suf]|]; [done|].
  by destruct (Ascii.eqb a ".").
Qed.

Lemma lower_basename f : basename (lower f) = lower (basename f).
Proof.
  unfold basename. rewrite split_slash_lower, filter_is_name_lower.
  exact (last_map_lower _ "").
Qed.

Lemma lower_path_suffix f : path_suffix (lower f) = lower (path_suffix f).
Proof.
  unfold path_suffix. cbn zeta.
  rewrite lower_basename, lower_rfind_dot, lower_length.
  destruct (rfind_dot _ 0) as [[j suf]|]; [|done].
  by destruct (_ && _).
Qed.

Lemma get_content_type_lower filename :
  get_content_type (lower filename) = get_content_type filename.
Proof.
  unfold get_content_type. cbn zeta. by rewrite lower_path_suffix, lower_idemp.
Qed.

(** X18.  [get_content_type] does not depend on the case of
    the file name. *)
Theorem get_content_type_ignores_case f1 f2 :
  lower f1 = lower f2 -> get_content_type f1 = get_content_type f2.
Proof.
  intros Heq. by rewrite <- (get_content_type_lower f1), Heq, get_content_type_lower.
Qed.

Lemma get_content_type_ignores_case_witness :
  lower "Clip.MoV" = lower "clip.mov" /\
  get_content_type "Clip.MoV" = get_content_type "clip.mov".
Proof.
  split; [reflexivity|].
  exact (get_content_type_ignores_case "Clip.MoV" "clip.mov" eq_refl).
Defined.

Lemma rfind_dot_none s i : lacks "." s -> rfind_dot s i = None.
Proof.
  revert i. induction s as [|a s IH]; intros i; [done|]. intros [Ha Hs].
  cbn [rfind_dot]. rewrite IH by done. by destruct (Ascii.eqb_spec a ".").
Qed.

Lemma rfind_dot_last stem e i :
  lacks "." e ->
  rfind_dot (stem ++ String "." e) i
  = Some ((i + String.length stem)%nat, String "." e).
Proof.
  intros He. revert i. induction stem as [|a stem IH]; intros i.
  - rewrite append_nil_l. cbn [rfind_dot]. rewrite rfind_dot_none by done.
    cbn. by rewrite Nat.add_0_r.
  - rewrite append_cons. cbn [rfind_dot]. rewrite IH. cbn [String.length].
    by replace (S i + String.length stem)%nat with (i + S (String.length stem))%nat by lia.
Qed.

Lemma split_slash_plain s : lacks "/" s -> split_slash s = [s].
Proof.
  induction s as [|a s IH]; [done|]. intros [Ha Hs].
  cbn [split_slash]. destruct (Ascii.eqb_spec a "/"); [done|]. by rewrite IH.
Qed.

Lemma split_slash_not_nil s : split_slash s <> [].
Proof.
  destruct s as [|a s]; [done|]. cbn [split_slash].
  destruct (Ascii.eqb a "/"); [done|]. by destruct (split_slash s).
Qed.

Lemma split_slash_app pre s :
  split_slash (pre ++ String "/" s) = (split_slash pre ++ split_slash s)%list.
Proof.
  induction pre as [|a pre IH].
  - rewrite append_nil_l. cbn [split_slash]. by rewrite Ascii.eqb_refl.
  - rewrite append_cons. cbn [split_slash]. rewrite IH.
    destruct (Ascii.eqb a "/"); [done|].
    destruct (split_slash pre) as [|c cs] eqn:Hpre; [|done].
    by destruct (split_slash_not_nil pre).
Qed.

Lemma is_name_long c : (2 <= String.length c)%nat -> is_name c = true.
Proof.
  destruct c as [|a [|b c]]; cbn [String.length]; intros Hlen; [lia..|].
  unfold is_name. cbn [String.eqb orb]. destruct (Ascii.eqb a "."); reflexivity.
Qed.

Lemma basename_plain name : lacks "/" name -> is_name name = true -> basename name = name.
Proof.
  intros Hn Hname. unfold basename. rewrite split_slash_plain by done.
  cbn [List.filter]. by rewrite Hname.
Qed.

Lemma basename_after_slash pre name :
  lacks "/" name -> is_name name = true -> basename (pre ++ String "/" name) = name.
Proof.
  intros Hn Hname. unfold basename.
  rewrite split_slash_app, List.filter_app, (split_slash_plain name) by done.
  cbn [List.filter]. rewrite Hname. apply List.last_last.
Qed.

Lemma length_append s t : String.length (s ++ t) = (String.length s + String.length t)%nat.
Proof. induction s as [|a s IH]; [done|]. rewrite append_cons. cbn. by rewrite IH. Qed.

Lemma path_suffix_of_name stem a e name :
  basename name = stem ++ String "." (String a e) ->
  stem <> "" -> lacks "." (String a e) ->
  path_suffix name = String "." (String a e).
Proof.
  intros Hb Hstem He. unfold path_suffix. cbn zeta. rewrite Hb.
  rewrite rfind_dot_last by done. rewrite length_append. cbn [String.length].
  destruct stem as [|c stem]; [done|]. cbn [String.length].
  destruct (Nat.ltb_spec 0 (0 + S (String.length stem))); [|lia].
  destruct (Nat.ltb_spec (0 + S (String.length stem))
              (S (String.length stem) + S (S (String.length e)) - 1)); [done|lia].
Qed.

Lemma lacks_slash_lower s : lacks "/" s -> lacks "/" (lower s).
Proof.
  induction s as [|a s IH]; [done|]. intros [Ha Hs]. cbn [lower lacks].
  split; [|by apply IH]. intros Heq. apply Ha.
  apply Ascii.eqb_eq. rewrite <- ascii_lower_slash. by apply Ascii.eqb_eq.
Qed.

Lemma content_type_of_lower_name stem ext ty :
  In (ext, ty) content_types -> stem <> "" ->
  forall name, basename name = stem ++ ext -> get_content_type name = ty.
Proof.
  intros Hin Hstem name Hb. unfold get_content_type. cbn zeta.
  unfold content_types in Hin.
  repeat (destruct Hin as [[= <- <-]|Hin];
          [rewrite (path_suffix_of_name _ _ _ _ Hb);
           [reflexivity | exact Hstem | cbn; repeat split; discriminate]|]).
  destruct Hin.
Qed.

(** X19.  A file name that ends in one of the twelve
    extensions of the table, in any case and after a non-empty stem,
    gets the content type of that extension, with or without a directory
    in front. *)
Theorem get_content_type_known_extension stem ext' ext ty pre :
  In (ext, ty) content_types -> lower ext' = ext ->
  stem <> "" -> lacks "/" stem -> 
  get_content_type (stem ++ ext') = ty /\
  get_content_type (pre ++ "/" ++ stem ++ ext') = ty.
Proof.
  intros Hin Hext Hstem Hslash.
  assert (Hext_shape : lacks "/" ext /\ (1 <= String.length ext)%nat).
  { unfold content_types in Hin.
    repeat (destruct Hin as [[= <- <-]|Hin];
            [split; [cbn; repeat split; discriminate|cbn; lia]|]).
    destruct Hin. }
  destruct Hext_shape as [Hext_slash Hext_len].
  assert (Hstem' : lower stem <> "") by (by destruct stem).
  assert (Hname : lacks "/" (lower stem ++ ext))
    by (apply lacks_app; auto using lacks_slash_lower).
  assert (Hlong : is_name (lower stem ++ ext) = true).
  { apply is_name_long. rewrite length_append, lower_length.
    destruct stem; [done|]. cbn [String.length]. lia. }
  split.
  - rewrite <- get_content_type_lower, lower_app, Hext.
    apply (content_type_of_lower_name (lower stem) ext ty Hin Hstem').
    by apply basename_plain.
  - rewrite <- get_content_type_lower, !lower_app, Hext.
    apply (content_type_of_lower_name (lower stem) ext ty Hin Hstem').
    change (lower "/") with "/".
    change ("/" ++ lower stem ++ ext) with (String "/" (lower stem ++ ext)).
    by apply basename_after_slash.
Qed.

Lemma get_content_type_known_extension_witness :
  In (".jpg", "image/jpeg") content_types /\ lower ".JPG" = ".jpg" /\
  "IMG_1" <> "" /\ lacks "/" "IMG_1" /\
  get_content_type ("IMG_1" ++ ".JPG") = "image/jpeg" /\
  get_content_type ("/tmp/tmpk3v9x2" ++ "/" ++ "IMG_1" ++ ".JPG") = "image/jpeg".
Proof.
  assert (Hin : In (".jpg", "image/jpeg") content_types) by (left; reflexivity).
  assert (Hne : "IMG_1" <> "") by discriminate.
  assert (Hl : lacks "/" "IMG_1") by (by apply (bool_decide_unpack _)).
  split; [exact Hin|]. split; [reflexivity|]. split; [exact Hne|]. split; [exact Hl|].
  exact (get_content_type_known_extension "IMG_1" ".JPG" ".jpg" "image/jpeg"
           "/tmp/tmpk3v9x2" Hin eq_refl Hne Hl).
Defined.

(** X20.  A file name whose last component is not empty
    and holds no dot gets [application/octet-stream]. *)
Theorem get_content_type_without_extension filename :
  basename filename <> "" -> lacks "." (basename filename) ->
  get_content_type filename = "application/octet-stream".
Proof.
  intros _ Hno. unfold get_content_type, path_suffix. cbn zeta.
  by rewrite rfind_dot_none.
Qed.

Lemma get_content_type_without_extension_witness :
  basename "/tmp/tmpk3v9x2/README" <> "" /\ lacks "." (basename "/tmp/tmpk3v9x2/README") /\
  get_content_type "/tmp/tmpk3v9x2/README" = "application/octet-stream".
Proof.
  assert (Hne : basename "/tmp/tmpk3v9x2/README" <> "") by (vm_compute; discriminate).
  assert (Hl : lacks "." (basename "/tmp/tmpk3v9x2/README"))
    by (by apply (bool_decide_unpack _)).
  split; [exact Hne|]. split; [exact Hl|].
  exact (get_content_type_without_extension "/tmp/tmpk3v9x2/README" Hne Hl).
Defined.

(** ** Destination keys *)

Lemma pretty_N_go_lacks c x s :
  (forall d, pretty_N_char d <> c) -> lacks c s -> lacks c (pretty_N_go x s).
Proof.
  intros Hc. revert s. induction (N.lt_wf_0 x) as [x _ IH]; intros s Hs.
  destruct (decide (x = 0)%N) as [->|Hx]; [by rewrite pretty_N_go_0|].
  rewrite pretty_N_go_step by lia. apply IH.
  - apply N.div_lt; lia.
  - split; [apply Hc|done].
Qed.

Lemma pretty_N_lacks c (x : N) : (forall d, pretty_N_char d <> c) -> lacks c (pretty x).
Proof.
  intros Hc. unfold pretty, pretty_N. destruct (decide (x = 0)%N).
  - split; [apply (Hc 0%N)|done].
  - by apply pretty_N_go_lacks.
Qed.

Lemma digit_not_slash d : pretty_N_char d <> "/"%char.
Proof. unfold pretty_N_char. by repeat case_match. Qed.

Lemma digit_not_u d : pretty_N_char d <> "u"%char.
Proof. unfold pretty_N_char. by repeat case_match. Qed.

Lemma month_cases (m : N) :
  (1 <= m <= 12)%N ->
  m = 1%N \/ m = 2%N \/ m = 3%N \/ m = 4%N \/ m = 5%N \/ m = 6%N \/
  m = 7%N \/ m = 8%N \/ m = 9%N \/ m = 10%N \/ m = 11%N \/ m = 12%N.
Proof. lia. Qed.

Lemma fmt_02d_month m :
  (1 <= m <= 12)%N -> String.length (fmt_02d m) = 2%nat /\ lacks "/" (fmt_02d m).
Proof.
  intros Hm%month_cases. decompose [or] Hm; subst m; vm_compute; intuition discriminate.
Qed.

Lemma fmt_02d_inj m1 m2 :
  (1 <= m1 <= 12)%N -> (1 <= m2 <= 12)%N -> fmt_02d m1 = fmt_02d m2 -> m1 = m2.
Proof.
  intros H1%month_cases H2%month_cases.
  decompose [or] H1; decompose [or] H2; subst m1 m2; vm_compute;
    intros Heq; first [reflexivity | discriminate Heq].
Qed.

Lemma generate_s3_key_dated photo filename d :
  photo_date photo = Some d ->
  generate_s3_key photo filename
  = "photos/" ++ (pretty (year d) ++ String "/" (fmt_02d (month d) ++ String "/" filename)).
Proof. unfold generate_s3_key, photo_date, fmt_d. by intros ->. Qed.

Lemma generate_s3_key_undated photo filename :
  photo_date photo = None ->
  generate_s3_key photo filename = "photos/" ++ ("unknown_date" ++ String "/" filename).
Proof. unfold generate_s3_key, photo_date. by intros ->. Qed.

(** X21.  Two keys made by [generate_s3_key] are equal only for
    the same file name and the same partition: the same year and month,
    or both undated. *)
Theorem generate_s3_key_inj p1 p2 f1 f2 :
  valid_month p1 = true -> valid_month p2 = true ->
  generate_s3_key p1 f1 = generate_s3_key p2 f2 ->
  f1 = f2 /\ partition_of p1 = partition_of p2.
Proof.
  unfold valid_month, partition_of.
  destruct (photo_date p1) as [d1|] eqn:H1, (photo_date p2) as [d2|] eqn:H2;
    intros Hv1 Hv2;
    try (apply andb_prop in Hv1 as [Hv1a%N.leb_le Hv1b%N.leb_le]);
    try (apply andb_prop in Hv2 as [Hv2a%N.leb_le Hv2b%N.leb_le]);
    rewrite ?(generate_s3_key_dated _ _ _ H1), ?(generate_s3_key_dated _ _ _ H2),
      ?(generate_s3_key_undated _ _ H1), ?(generate_s3_key_undated _ _ H2);
    intros Heq%(inj (String.app "photos/")).
  - apply append_sep_inj in Heq as [Hy Heq];
      [|by apply pretty_N_lacks, digit_not_slash..].
    apply append_sep_inj in Heq as [Hm Hf];
      [|by apply fmt_02d_month; lia..].
    apply (inj pretty) in Hy. apply fmt_02d_inj in Hm; [|lia..]. by rewrite Hy, Hm.
  - apply append_sep_inj in Heq as [Hy _];
      [|by apply pretty_N_lacks, digit_not_slash|cbn; intuition discriminate].
    exfalso. pose proof (pretty_N_lacks "u" (year d1) digit_not_u) as Hu.
    rewrite Hy in Hu. by destruct Hu.
  - symmetry in Heq. apply append_sep_inj in Heq as [Hy _];
      [|by apply pretty_N_lacks, digit_not_slash|cbn; intuition discriminate].
    exfalso. pose proof (pretty_N_lacks "u" (year d2) digit_not_u) as Hu.
    rewrite Hy in Hu. by destruct Hu.
  - apply append_sep_inj in Heq as [_ Hf]; [done|cbn; intuition discriminate..].
Qed.

Lemma generate_s3_key_inj_witness :
  valid_month photo_a = true /\ valid_month photo_march = true /\
  generate_s3_key photo_a "IMG_1.JPG" = generate_s3_key photo_march "IMG_1.JPG" /\
  "IMG_1.JPG" = "IMG_1.JPG" /\ partition_of photo_a = partition_of photo_march.
Proof.
  split; [reflexivity|]. split; [reflexivity|]. split; [reflexivity|].
  exact (generate_s3_key_inj photo_a photo_march "IMG_1.JPG" "IMG_1.JPG"
           eq_refl eq_refl eq_refl).
Defined.

(** ** The outcomes of one transfer *)

(** X22.  When [photo.download()] answers with a falsy
    response or raises an ordinary exception, the iteration counts one
    error and nothing else: no file is written, no other call is made
    and the checkpoint set is unchanged. *)
Theorem failed_fetch_counts_as_error io photo temp_dir stats st :
  photo_key photo ∉ processed_files st ->
  io_download io = Ret None \/
  (exists e, io_download io = Raise e /\ is_Exception e = true) ->
  process_photo io photo temp_dir stats st
  = (Ret (incr_errors stats), set_trace (trace st ++ [EvDownload (id photo)]) st).
Proof.
  intros Hout Hdl. unfold process_photo, download_and_upload_photo. munfold.
  fold (photo_key photo). rewrite bool_decide_eq_false_2 by done.
  destruct Hdl as [-> | (e & -> & He)]; [done|]. by destruct e.
Qed.

Lemma failed_fetch_counts_as_error_witness :
  (photo_key photo_a ∉ processed_files fresh) /\
  io_download io_fetch_fails = Ret None /\
  process_photo io_fetch_fails photo_a "/tmp/tmpk3v9x2" (stats0 [photo_a]) fresh
  = (Ret (incr_errors (stats0 [photo_a])),
     set_trace (trace fresh ++ [EvDownload (id photo_a)]) fresh).
Proof.
  assert (Hout : photo_key photo_a ∉ processed_files fresh) by (vm_compute; discriminate).
  split; [exact Hout|]. split; [reflexivity|].
  exact (failed_fetch_counts_as_error io_fetch_fails photo_a "/tmp/tmpk3v9x2"
           (stats0 [photo_a]) fresh Hout (or_introl eq_refl)).
Defined.





(** ** Setup *)

(** X25.  [setup_s3] returns [True] exactly when the client could
    be built and [head_bucket] succeeded; an ordinary exception raised
    by either gives [False], and a keyboard interrupt goes on to the
    caller.  The client handle is set as soon as the client is built,
    also when the bucket check fails afterwards, and is left as it was
    when the client cannot be built. *)
Theorem setup_s3_outcome sio bucket_name aws_access_key aws_secret_key region st :
  let client := s3_new_client sio (explicit_credentials aws_access_key aws_secret_key) region in
  let head := s3_head_bucket sio bucket_name in
  let call := setup_s3 sio bucket_name aws_access_key aws_secret_key region st in
  (fst call = Ret true <-> client = Ret tt /\ head = Ret tt) /\
  (forall e, is_Exception e = true ->
             client = Raise e \/ (client = Ret tt /\ head = Raise e) ->
             fst call = Ret false) /\
  (client = Raise KeyboardInterrupt \/ (client = Ret tt /\ head = Raise KeyboardInterrupt) ->
   fst call = Raise KeyboardInterrupt) /\
  (client = Ret tt -> snd call = set_s3_client st) /\
  (client <> Ret tt -> snd call = st).
Proof.
  cbn zeta. unfold setup_s3. munfold.
  destruct (s3_new_client sio _ region) as [[]|[code| |]];
    [destruct (s3_head_bucket sio bucket_name) as [[]|[code| |]]|..];
    cbn; repeat case_match; split_and!; try done.
  all: try (split; [done|]; intros [? ?]; done).
  all: try (intros e He [Heq|[? Heq]]; simplify_eq; done).
  all: try (intros [Heq|[? Heq]]; simplify_eq; done).
Qed.

(** X26.  [setup_icloud] returns [True] only after
    the connection was made and, when the account asks for it, the
    verification succeeded: the two-factor code was accepted, or, with
    two-step authentication, a code was sent to the selected device and
    the code typed in was accepted. *)
Theorem setup_icloud_requires_verification ic username password st :
  fst (setup_icloud ic username password st) = Ret true ->
  ic_connect ic = Ret tt /\
  (ic_requires_2fa ic = true ->
   exists code,
     ic_input ic "Enter the verification code sent to your devices: " = Ret code /\
     ic_validate_2fa_code ic code = Ret true) /\
  (ic_requires_2fa ic = false -> ic_requires_2sa ic = true ->
   exists text i dev code,
     ic_input ic "Select device: " = Ret text /\ ic_int ic text = Ret i /\
     py_getitem (ic_trusted_devices ic) i = Ret dev /\
     ic_send_verification_code ic dev = Ret true /\
     ic_input ic "Enter verification code: " = Ret code /\
     ic_validate_verification_code ic dev code = Ret true).
Proof.
  unfold setup_icloud. munfold. intros Hrun.
  destruct (ic_connect ic) as [[]|e]; [|by destruct e].
  split; [done|].
  destruct (ic_requires_2fa ic).
  - split; [|done]. intros _.
    destruct (ic_input ic _) as [code|e]; [|by destruct e].
    destruct (ic_validate_2fa_code ic code) as [[]|e] eqn:Hv; [| |by destruct e]; [|done].
    eauto.
  - split; [done|]. intros _ H2sa. rewrite H2sa in Hrun.
    destruct (ic_input ic "Select device: ") as [text|e] eqn:Ht; [|by destruct e].
    destruct (ic_int ic text) as [i|e] eqn:Hi; [|by destruct e].
    destruct (py_getitem _ i) as [dev|e] eqn:Hd; [|by destruct e].
    destruct (ic_send_verification_code ic dev) as [[]|e] eqn:Hs; [| |by destruct e]; [|done].
    cbn in Hrun.
    destruct (ic_input ic "Enter verification code: ") as [code|e] eqn:Hc; [|by destruct e].
    destruct (ic_validate_verification_code ic dev code) as [[]|e] eqn:Hv;
      [| |by destruct e]; [|done].
    eauto 10.
Qed.

Lemma setup_icloud_requires_verification_witness :
  fst (setup_icloud ic_2fa "user@example.com" "secret" (new_sync "DEEP_ARCHIVE" ∅ None))
  = Ret true /\
  ic_connect ic_2fa = Ret tt /\
  (ic_requires_2fa ic_2fa = true ->
   exists code,
     ic_input ic_2fa "Enter the verification code sent to your devices: " = Ret code /\
     ic_validate_2fa_code ic_2fa code = Ret true) /\
  (ic_requires_2fa ic_2fa = false -> ic_requires_2sa ic_2fa = true ->
   exists text i dev code,
     ic_input ic_2fa "Select device: " = Ret text /\ ic_int ic_2fa text = Ret i /\
     py_getitem (ic_trusted_devices ic_2fa) i = Ret dev /\
     ic_send_verification_code ic_2fa dev = Ret true /\
     ic_input ic_2fa "Enter verification code: " = Ret code /\
     ic_validate_verification_code ic_2fa dev code = Ret true).
Proof.
  split; [reflexivity|].
  exact (setup_icloud_requires_verification ic_2fa "user@example.com" "secret"
           (new_sync "DEEP_ARCHIVE" ∅ None) eq_refl).
Defined.

(** X27.  A device number outside the list of trusted
    devices makes [setup_icloud] return [False]; the iCloud handle stays
    set. *)
Theorem setup_icloud_bad_device_index ic username password st text i :
  ic_connect ic = Ret tt -> ic_requires_2fa ic = false -> ic_requires_2sa ic = true ->
  ic_input ic "Select device: " = Ret text -> ic_int ic text = Ret i ->
  i < - Z.of_nat (length (ic_trusted_devices ic)) \/
  Z.of_nat (length (ic_trusted_devices ic)) <= i ->
  setup_icloud ic username password st = (Ret false, set_icloud st).
Proof.
  intros Hc H2fa H2sa Ht Hi Hout. unfold setup_icloud. munfold.
  rewrite Hc, H2fa, H2sa, Ht, Hi. unfold py_getitem. cbn zeta.
  destruct (Z.ltb_spec i 0).
  - destruct (Z.leb_spec 0 (i + Z.of_nat (length (ic_trusted_devices ic)))); [lia|done].
  - destruct (Z.leb_spec 0 i); [|lia].
    destruct (Z.ltb_spec i (Z.of_nat (length (ic_trusted_devices ic)))); [lia|done].
Qed.

Lemma setup_icloud_bad_device_index_witness :
  ic_int ic_2sa "7" = Ret 7 /\
  Z.of_nat (length (ic_trusted_devices ic_2sa)) <= 7 /\
  setup_icloud ic_2sa "user@example.com" "secret" (new_sync "DEEP_ARCHIVE" ∅ None)
  = (Ret false, set_icloud (new_sync "DEEP_ARCHIVE" ∅ None)).
Proof.
  assert (Hi : Z.of_nat (length (ic_trusted_devices ic_2sa)) <= 7) by (cbn; lia).
  split; [reflexivity|]. split; [exact Hi|].
  exact (setup_icloud_bad_device_index ic_2sa "user@example.com" "secret"
           (new_sync "DEEP_ARCHIVE" ∅ None) "7" 7
           eq_refl eq_refl eq_refl eq_refl eq_refl (or_intror Hi)).
Defined.


Lemma setup_icloud_handle ic username password st :
  ic_connect ic = Ret tt ->
  snd (setup_icloud ic username password st) = set_icloud st.
Proof.
  intros Hc. unfold setup_icloud. munfold. rewrite Hc.
  destruct (ic_requires_2fa ic).
  { destruct (ic_input ic _) as [code|[]]; try done.
    by destruct (ic_validate_2fa_code ic code) as [[]|[]]. }
  destruct (ic_requires_2sa ic); [|done].
  destruct (ic_input ic "Select device: ") as [text|[]]; try done.
  destruct (ic_int ic text) as [i|[]]; try done.
  destruct (py_getitem _ i) as [dev|[]]; try done.
  destruct (ic_send_verification_code ic dev) as [[]|[]]; try done. cbn.
  destruct (ic_input ic "Enter verification code: ") as [code|[]]; try done.
  by destruct (ic_validate_verification_code ic dev code) as [[]|[]].
Qed.

(** X28.  The guard of [sync_photos] looks at the
    handles, not at what the setups returned: after a [setup_s3] that
    returned [False] because the bucket check failed, every run of
    [sync_photos] is the run that follows a [setup_s3] that returned
    [True].  In particular, when the listing of the photos returns and
    nothing is interrupted, the run returns its statistics. *)
Theorem failed_bucket_check_passes_the_guard
    ic username password sio sio_ok bucket_name aws_access_key aws_secret_key region e st :
  ic_connect ic = Ret tt ->
  s3_new_client sio (explicit_credentials aws_access_key aws_secret_key) region = Ret tt ->
  s3_head_bucket sio bucket_name = Raise e -> is_Exception e = true ->
  s3_new_client sio_ok (explicit_credentials aws_access_key aws_secret_key) region = Ret tt ->
  s3_head_bucket sio_ok bucket_name = Ret tt ->
  let st1 := snd (setup_icloud ic username password st) in
  let failed := setup_s3 sio bucket_name aws_access_key aws_secret_key region st1 in
  let passed := setup_s3 sio_ok bucket_name aws_access_key aws_secret_key region st1 in
  fst failed = Ret false /\ fst passed = Ret true /\
  forall E max_photos,
    sync_photos E max_photos (snd failed) = sync_photos E max_photos (snd passed) /\
    forall photos,
      calm (env_load E) -> env_photos E = Ret photos ->
      (forall j, calm_item (env_item E j)) -> calm_save (env_final_save E) ->
      exists stats, fst (sync_photos E max_photos (snd failed)) = Ret stats.
Proof.
  intros Hc Hn Hh He Hn' Hh'. cbn zeta.
  rewrite setup_icloud_handle by done.
  assert (Hfailed : setup_s3 sio bucket_name aws_access_key aws_secret_key region
                      (set_icloud st)
                    = (Ret false, set_s3_client (set_icloud st))).
  { unfold setup_s3. munfold. rewrite Hn, Hh.
    destruct e as [code| |]; try done. cbn. by repeat case_match. }
  assert (Hpassed : setup_s3 sio_ok bucket_name aws_access_key aws_secret_key region
                      (set_icloud st)
                    = (Ret true, set_s3_client (set_icloud st))).
  { unfold setup_s3. munfold. by rewrite Hn', Hh'. }
  rewrite Hfailed, Hpassed. split; [done|]. split; [done|].
  intros E max_photos. split; [done|].
  intros photos Hload Hp Hitems Hfinal.
  by apply sync_photos_completes with (photos := photos).
Qed.

Lemma failed_bucket_check_passes_the_guard_witness :
  s3_head_bucket s3_no_bucket "my-photos" = Raise (ClientError "404") /\
  s3_head_bucket s3_ok "my-photos" = Ret tt /\
  fst (setup_s3 s3_no_bucket "my-photos" None None "us-east-1"
         (snd (setup_icloud ic_2fa "user@example.com" "secret"
                 (new_sync "DEEP_ARCHIVE" ∅ None)))) = Ret false /\
  fst (setup_s3 s3_ok "my-photos" None None "us-east-1"
         (snd (setup_icloud ic_2fa "user@example.com" "secret"
                 (new_sync "DEEP_ARCHIVE" ∅ None)))) = Ret true /\
  forall E max_photos,
    sync_photos E max_photos
      (snd (setup_s3 s3_no_bucket "my-photos" None None "us-east-1"
              (snd (setup_icloud ic_2fa "user@example.com" "secret"
                      (new_sync "DEEP_ARCHIVE" ∅ None)))))
    = sync_photos E max_photos
        (snd (setup_s3 s3_ok "my-photos" None None "us-east-1"
                (snd (setup_icloud ic_2fa "user@example.com" "secret"
                        (new_sync "DEEP_ARCHIVE" ∅ None))))) /\
    forall photos,
      calm (env_load E) -> env_photos E = Ret photos ->
      (forall j, calm_item (env_item E j)) -> calm_save (env_final_save E) ->
      exists stats,
        fst (sync_photos E max_photos
               (snd (setup_s3 s3_no_bucket "my-photos" None None "us-east-1"
                       (snd (setup_icloud ic_2fa "user@example.com" "secret"
                               (new_sync "DEEP_ARCHIVE" ∅ None)))))) = Ret stats.
Proof.
  split; [reflexivity|]. split; [reflexivity|].
  exact (failed_bucket_check_passes_the_guard ic_2fa "user@example.com" "secret"
           s3_no_bucket s3_ok "my-photos" None None "us-east-1" (ClientError "404")
           (new_sync "DEEP_ARCHIVE" ∅ None)
           eq_refl eq_refl eq_refl eq_refl eq_refl eq_refl).
Defined.
